(** * Pairwise Test Case Generator: main.py and the pairwise engine

    A shallow embedding of [src/main.py] (the Streamlit front end of the
    pairwise test-case generator) and, for the module [algo] that main.py
    imports but that is not part of the sources, a model written from the
    specification.

    Python values are modelled as follows.
    - [str] is [string]; a character is a code point below 256.
    - the [dict] of parameters (name to list of values) is an association
      list in insertion order: Python dictionaries keep insertion order, and
      the order of the keys is what the table headers, the test-case tuples
      and the index pairs (i, j) with i < j are built from.
    - a test case (a tuple of values) is a [list string].
    - sets of pairs are [gset]s. *)

From Stdlib Require Import Ascii.
From stdpp Require Import gmap strings list pretty.

#[local] Set Warnings "-clear-no-such-hyp".

(** ** Python string primitives used by main.py *)

Module PyStr.

(** [str.isspace] on one character (code points below 256): the ASCII
    controls TAB..CR and FS..US, the space, NEL and the no-break space. *)
Definition isspace (c : ascii) : bool :=
  let n := Ascii.nat_of_ascii c in
  ((9 <=? n) && (n <=? 13)) || ((28 <=? n) && (n <=? 32))
  || (n =? 133) || (n =? 160).

(** Truthiness of a [str]: the empty string is falsy. *)
Definition truthy (s : string) : bool :=
  match s with
  | EmptyString => false
  | String _ _ => true
  end.

Fixpoint lstrip (s : string) : string :=
  match s with
  | EmptyString => EmptyString
  | String c s' => if isspace c then lstrip s' else s
  end.

Fixpoint rstrip (s : string) : string :=
  match s with
  | EmptyString => EmptyString
  | String c s' =>
      match rstrip s' with
      | EmptyString => if isspace c then EmptyString else String c EmptyString
      | r => String c r
      end
  end.

(** [s.strip()] *)
Definition strip (s : string) : string := rstrip (lstrip s).

(** [s.split(sep)] for a one-character separator: every occurrence of
    [sep] ends a segment, so the result has one more element than [s] has
    separators, and [''.split(',')] is [['']]. *)
Fixpoint split (sep : ascii) (s : string) : list string :=
  match s with
  | EmptyString => [EmptyString]
  | String c s' =>
      if Ascii.eqb c sep then EmptyString :: split sep s'
      else match split sep s' with
           | seg :: segs => String c seg :: segs
           | [] => [String c EmptyString]
           end
  end.

(** [sep.join(l)] *)
Fixpoint join (sep : string) (l : list string) : string :=
  match l with
  | [] => EmptyString
  | [x] => x
  | x :: rest => x +:+ sep +:+ join sep rest
  end.

(** Every character of [s] is whitespace ([s] may be empty). *)
Fixpoint all_space (s : string) : bool :=
  match s with
  | EmptyString => true
  | String c s' => isspace c && all_space s'
  end.

(** [len(set(l))]: the number of distinct elements of [l]. *)
Definition len_set (l : list string) : nat := length (remove_dups l).

End PyStr.

(** ** The parameters dictionary *)

Module Dict.

(** [st.session_state.parameters]: name to list of values, in insertion
    order. *)
Definition dict : Type := list (string * list string).

Definition keys (d : dict) : list string := d.*1.
Definition values (d : dict) : list (list string) := d.*2.
Definition items (d : dict) : list (string * list string) := d.
Definition len (d : dict) : nat := length d.

(** [k in d] *)
Definition contains (k : string) (d : dict) : bool :=
  bool_decide (k ∈ keys d).

(** [d[k]]; [None] is Python's KeyError. *)
Fixpoint get (k : string) (d : dict) : option (list string) :=
  match d with
  | [] => None
  | (k', v) :: d' => if decide (k = k') then Some v else get k d'
  end.

(** [d[k] = v]: an existing key keeps its position, a new key goes last. *)
Fixpoint set (k : string) (v : list string) (d : dict) : dict :=
  match d with
  | [] => [(k, v)]
  | (k', v') :: d' =>
      if decide (k = k') then (k, v) :: d' else (k', v') :: set k v d'
  end.

(** [del d[k]]; [None] is Python's KeyError. *)
Fixpoint del (k : string) (d : dict) : option dict :=
  match d with
  | [] => None
  | (k', v') :: d' =>
      if decide (k = k') then Some d'
      else cons (k', v') <$> del k d'
  end.

(** The representation invariant of a dictionary: keys are unique. *)
Definition wf (d : dict) : Prop := NoDup (keys d).

End Dict.

(** ** main.py *)

Module Main.
Import PyStr.
Export Dict.

(** The session state holds the key ['parameters'] or not. *)
Definition session_state : Type := option dict.

Definition default_parameters : dict :=
  [ ("Display Mode", ["Full Graph"; "Text Only"; "Limited-Bandwidth"]);
    ("Language", ["English"; "French"; "Spanish"; "Turkish"]);
    ("Fonts", ["Minimal"; "Standard"; "Document-loaded"]);
    ("Color", ["Monochrome"; "Colormap"; "16-bit"; "True Color"]);
    ("Screen Size", ["Hand-held"; "laptop"; "fullsize"]) ].

(** [initialize_session_state]: sets the default parameters only when the
    session has none; the result is the parameters of the session after
    the call. *)
Definition initialize_session_state (st : session_state) : dict :=
  match st with
  | None => default_parameters
  | Some parameters => parameters
  end.

(** [validate_parameter_name(name)], reading [st.session_state.parameters]. *)
Definition validate_parameter_name (parameters : dict) (name : string)
  : bool * string :=
  if negb (truthy name) || negb (truthy (strip name)) then
    (false, "Parameter name cannot be empty")
  else if contains (strip name) parameters then
    (false, "Parameter name already exists")
  else (true, "").

(** The list comprehension
    [[v.strip() for v in values.split(',') if v.strip()]]. *)
Definition clean_values (values : string) : list string :=
  strip <$> filter (λ v, truthy (strip v) = true) (split ","%char values).

(** [validate_parameter_values(values)] *)
Definition validate_parameter_values (values : string)
  : bool * list string * string :=
  if negb (truthy values) || negb (truthy (strip values)) then
    (false, [], "Values cannot be empty")
  else
    let values_list := clean_values values in
    match values_list with
    | [] => (false, [], "No valid values provided")
    | _ =>
        if negb (length values_list =? len_set values_list) then
          (false, [], "Duplicate values are not allowed")
        else if length values_list <? 2 then
          (false, [], "At least 2 values are required for each parameter")
        else (true, values_list, "")
    end.

(** The comma-separated values after trimming, one per segment of the
    input. *)
Definition trimmed_segments (values : string) : list string :=
  strip <$> split ","%char values.

(** The acceptance condition of the values as the specification words it:
    the comma-separated values, after trimming, are non-empty, number at
    least 2 and contain no duplicates. *)
Definition values_ok_as_stated (values : string) : Prop :=
  Forall (λ v, v ≠ "") (trimmed_segments values)
  ∧ 2 ≤ length (trimmed_segments values)
  ∧ NoDup (trimmed_segments values).

(** The invariant of the parameter set: names are unique, and every value
    list has at least 2 values, pairwise distinct. *)
Definition parameters_ok (parameters : dict) : Prop :=
  NoDup (keys parameters)
  ∧ Forall (λ vs, 2 ≤ length vs ∧ NoDup vs) (values parameters).

(** A valid parameter set: the invariant, and at least 2 parameters. *)
Definition valid_parameters (parameters : dict) : Prop :=
  2 ≤ len parameters ∧ parameters_ok parameters.

(** What a button handler shows: [st.error] or [st.success]. *)
Inductive message : Type :=
| Error (msg : string)
| Success (msg : string).

(** The "Add Parameter" button (lines 68-80). *)
Definition add_parameter (new_param new_values : string) (parameters : dict)
  : dict * message :=
  let '(name_valid, name_error) := validate_parameter_name parameters new_param in
  if negb name_valid then (parameters, Error name_error)
  else
    let '(values_valid, values_list, values_error) :=
      validate_parameter_values new_values in
    if negb values_valid then (parameters, Error values_error)
    else (set (strip new_param) values_list parameters,
          Success ("Added parameter: " +:+ new_param)).

(** The "Update" button of parameter [param] (lines 106-113). *)
Definition update_parameter (param values : string) (parameters : dict)
  : dict * message :=
  let '(values_valid, values_list, values_error) :=
    validate_parameter_values values in
  if negb values_valid then (parameters, Error values_error)
  else (set param values_list parameters, Success ("Updated " +:+ param)).

(** The "Delete" button of parameter [param] (lines 115-123); [None] is
    the KeyError of [del] on a missing key. *)
Definition delete_parameter (param : string) (parameters : dict)
  : option (dict * message) :=
  if len parameters <=? 2 then
    Some (parameters, Error "Cannot delete: minimum 2 parameters required")
  else
    parameters' ← del param parameters;
    Some (parameters', Success ("Deleted " +:+ param)).

(** *** The "Generate Test Cases" button (lines 134-189) *)

(** A test case as main.py uses it: [list(test)] is the tuple's values. *)
Definition test_case : Type := list string.

(** Exceptions that end a run. *)
Inductive exn : Type :=
| PreconditionError
| InternalConsistencyError
| IndexError
| ValueError.

(** The interface of the imported module [algo], as main.py calls it: two
    functions, each of which returns or raises. The sets of pairs are used
    by main.py only through [len]. *)
Class AlgoModule : Type := {
  pair_set : Type;
  pair_set_len : pair_set → nat;
  find_minimum_test_suite : dict → exn + (list test_case * pair_set);
  count_unique_pairs :
    list test_case → pair_set → dict →
    exn + (pair_set * list pair_set * list nat)
}.

(** A cell of the results table: a string or an integer. *)
Inductive cell : Type :=
| cell_str (s : string)
| cell_int (n : nat).

(** What a run of the generate section does, in order: the calls into
    [algo] and the Streamlit elements it renders. [st_dataframe] is the table
    of exactly the given rows under the given headers; [st_dataframe_padded]
    is [st.dataframe] of a frame in which pandas has filled rows that are
    shorter than the headers with missing values, of which the contents are
    not modelled further. *)
Inductive event : Type :=
| call_find_minimum_test_suite (parameters : dict)
| call_count_unique_pairs (tests : list test_case)
| st_error (msg : string)
| st_success (msg : string)
| st_metric (label : string) (value : nat)
| st_subheader (title : string)
| st_dataframe (headers : list string) (table_data : list (list cell))
| st_dataframe_padded (headers : list string) (table_data : list (list cell))
| raised (e : exn).

(** Lines 136-139: the names of the parameters with fewer than 2 values, in
    dictionary order. *)
Definition invalid_params (parameters : dict) : list string :=
  (filter (λ item, length item.2 < 2) (items parameters)).*1.

(** Line 173. *)
Definition headers (parameters : dict) : list string :=
  ["Test Case #"] ++ keys parameters ++ ["New Unique Pairs"].

(** Line 176: the row of test number [i] (counted from 1); [None] is the
    IndexError of [new_unique_counts[i-1]]. *)
Definition row (i : nat) (test : test_case) (new_unique_counts : list nat)
  : option (list cell) :=
  c ← new_unique_counts !! (i - 1);
  Some ([cell_str ("Test " +:+ pretty i)] ++ (cell_str <$> test) ++ [cell_int c]).

(** Lines 175-177: [for i, test in enumerate(optimal_tests, 1)], appending
    one row per test. *)
Fixpoint table_rows (i : nat) (optimal_tests : list test_case)
    (new_unique_counts : list nat) : option (list (list cell)) :=
  match optimal_tests with
  | [] => Some []
  | test :: rest =>
      r ← row i test new_unique_counts;
      rows ← table_rows (S i) rest new_unique_counts;
      Some (r :: rows)
  end.

Definition table_data (optimal_tests : list test_case)
    (new_unique_counts : list nat) : option (list (list cell)) :=
  table_rows 1 optimal_tests new_unique_counts.

(** Lines 181-186: [df = pd.DataFrame(table_data, columns=headers)] and
    [st.dataframe(df)], for rows as [table_data] builds them. pandas takes
    the widest row as the width of the data, fills the shorter rows with
    missing values, and raises ValueError when that width is not the number
    of columns (line 181); [st.dataframe] raises ValueError when two columns
    have the same name (line 182). *)
Definition show_dataframe (table_data : list (list cell)) (columns : list string)
  : list event :=
  if bool_decide (table_data ≠ []
                  ∧ max_list (length <$> table_data) ≠ length columns)
  then [raised ValueError]
  else if bool_decide (NoDup columns) then
    if bool_decide (Forall (λ r, length r = length columns) table_data)
    then [st_dataframe columns table_data]
    else [st_dataframe_padded columns table_data]
  else [raised ValueError].

(** Lines 134-189, once the button is pressed. *)
Definition generate `{AlgoModule} (parameters : dict) : list event :=
  match invalid_params parameters with
  | _ :: _ =>
      [st_error ("The following parameters need at least 2 values: "
                 +:+ join ", " (invalid_params parameters))]
  | [] =>
      if len parameters <? 2 then [st_error "Please add at least 2 parameters"]
      else
        call_find_minimum_test_suite parameters ::
        match find_minimum_test_suite parameters with
        | inl e => [raised e]
        | inr ([], _) => [st_error "No optimal test suite found."]
        | inr (optimal_tests, all_pairs) =>
            call_count_unique_pairs optimal_tests ::
            match count_unique_pairs optimal_tests all_pairs parameters with
            | inl e => [raised e]
            | inr (_, _, new_unique_counts) =>
                [st_success "Test suite generated successfully!";
                 st_metric "Total Unique Pairs" (pair_set_len all_pairs);
                 st_metric "Total Test Cases" (length optimal_tests);
                 st_subheader "Test Cases"] ++
                match table_data optimal_tests new_unique_counts with
                | Some rows => show_dataframe rows (headers parameters)
                | None => [raised IndexError]
                end
            end
        end
  end.

End Main.

(** ** The module [algo] *)

Module Algo.
Import PyStr.
Export Main.

(** Modelled from the spec: the module [algo] ([find_minimum_test_suite] and
    [count_unique_pairs]) is imported by main.py but is not among the
    sources. What follows is the data model of section 3 and the components
    of section 4 of the specification. *)

(** An Assignment: a parameter name with one of its values. *)
Abbreviation assignment := (string * string)%type (only parsing).

(** A Pair: an unordered pair of assignments, identified by its two members
    independent of order; the set of the two assignments. *)
Abbreviation Pair := (gset (string * string)) (only parsing).

Definition mk_pair (a b : assignment) : Pair := {[ a; b ]}.

(** The assignments of one parameter, in domain order. *)
Definition assignments_of (item : string * list string) : list assignment :=
  (λ v, (item.1, v)) <$> item.2.

(** Modelled from the spec: section 3, the universe of required pairs, one
    pair per two values of two distinct parameters; enumerated for the
    parameter-index pairs (i, j) with i < j. *)
Fixpoint pair_list (parameters : dict) : list Pair :=
  match parameters with
  | [] => []
  | item :: rest =>
      (a ← assignments_of item; b ← (rest ≫= assignments_of); [mk_pair a b])
      ++ pair_list rest
  end.

(** Modelled from the spec: the precondition of sections 4.1 and 6, at least
    2 parameters and at least 2 values for each. *)
Definition precondition (parameters : dict) : bool :=
  (2 <=? len parameters) && forallb (λ item, 2 <=? length item.2) (items parameters).

(** Modelled from the spec: section 4.1, PairEnumerator. *)
Definition PairEnumerator (parameters : dict) : exn + gset Pair :=
  if precondition parameters then inr (list_to_set (pair_list parameters))
  else inl PreconditionError.

(** All unordered pairs among a list of assignments. *)
Fixpoint pairs_among (l : list assignment) : list Pair :=
  match l with
  | [] => []
  | a :: rest => (mk_pair a <$> rest) ++ pairs_among rest
  end.

(** Modelled from the spec: section 3, the pairs a TestCase covers, every
    2-parameter sub-assignment within the test case. *)
Definition test_case_pairs (parameters : dict) (test : test_case) : gset Pair :=
  list_to_set (pairs_among (zip (keys parameters) test)).

(** Modelled from the spec: section 3, a TestCase is a total assignment, one
    value of its domain per parameter. *)
Definition is_test_case (parameters : dict) (test : test_case) : Prop :=
  Forall2 (λ item v, v ∈ item.2) parameters test.

(** The pairs covered by a suite. *)
Definition suite_pairs (parameters : dict) (suite : list test_case) : gset Pair :=
  ⋃ (test_case_pairs parameters <$> suite).

(** The size of the domain of the parameter at index [i]. *)
Definition domain_size (parameters : dict) (i : nat) : nat :=
  from_option (λ item, length item.2) 0 (parameters !! i).

(** The sum over the parameter-index pairs (i, j) with i < j of
    |domain(Pi)| * |domain(Pj)|. *)
Definition sum_over_index_pairs (parameters : dict) : nat :=
  sum_list_with
    (λ i, sum_list_with
            (λ j, domain_size parameters i * domain_size parameters j)
            (seq (S i) (len parameters - S i)))
    (seq 0 (len parameters)).

(** Pair [p] is attributed to the test case at index [i] of the suite: that
    test case covers it and no earlier one does. *)
Definition attributed (parameters : dict) (suite : list test_case)
    (i : nat) (p : Pair) : Prop :=
  ∃ test, suite !! i = Some test
    ∧ p ∈ test_case_pairs parameters test
    ∧ p ∉ suite_pairs parameters (take i suite).

(** *** GreedySuiteBuilder (section 4.2) *)

(** The first value of the domain with the highest score (first-declared
    wins a tie); the empty string stands for a choice from an empty domain,
    which the precondition excludes. *)
Definition pick (score : string → nat) (domain : list string) : string :=
  match domain with
  | [] => ""
  | v :: rest => foldl (λ best w, if score best <? score w then w else best) v rest
  end.

(** The number of currently uncovered pairs that [a] forms with the given
    assignments. *)
Definition gain (covered : gset Pair) (others : list assignment) (a : assignment) : nat :=
  length (filter (λ b, mk_pair a b ∉ covered) others).

(** A scoring rule sees the coverage so far, the assignments chosen earlier
    in this candidate, the parameters still to be assigned, and the
    assignment to score. *)
Definition scoring : Type :=
  gset Pair → list assignment → dict → assignment → nat.

(** Modelled from the spec: section 4.2 step 1, read to the letter: the
    uncovered pairs that the value forms with the values already chosen
    earlier in this candidate. *)
Definition score_chosen : scoring :=
  λ covered chosen later a, gain covered chosen a.

(** Section 4.2 step 1, read widely: the uncovered pairs that the value
    forms with the values already chosen, and those it can still form with a
    value of a parameter that is not assigned yet. *)
Definition score_reachable : scoring :=
  λ covered chosen later a,
    gain covered chosen a + gain covered (later ≫= assignments_of) a.

(** Modelled from the spec: section 4.2 steps 1 and 2, one candidate: for
    each parameter in declaration order the best-scoring value. *)
Fixpoint greedy_values (score : scoring) (covered : gset Pair)
    (chosen : list assignment) (parameters : dict) : test_case :=
  match parameters with
  | [] => []
  | (name, domain) :: later =>
      let v := pick (λ w, score covered chosen later (name, w)) domain in
      v :: greedy_values score covered (chosen ++ [(name, v)]) later
  end.

Definition greedy_candidate (score : scoring) (parameters : dict)
    (covered : gset Pair) : test_case :=
  greedy_values score covered [] parameters.

(** Modelled from the spec: section 4.2 steps 3 and 4, the loop: stop when
    the universe is covered; otherwise append the candidate and mark its
    pairs; [bound] iterations at most, then InternalConsistencyError. *)
Fixpoint greedy_loop (candidate : gset Pair → test_case) (parameters : dict)
    (required : gset Pair) (bound : nat) (covered : gset Pair)
    (suite : list test_case) : exn + list test_case :=
  if bool_decide (required ⊆ covered) then inr suite
  else
    match bound with
    | 0 => inl InternalConsistencyError
    | S bound' =>
        let test := candidate covered in
        greedy_loop candidate parameters required bound'
          (covered ∪ test_case_pairs parameters test) (suite ++ [test])
    end.

(** Modelled from the spec: section 4.2 step 5, the optional minimization
    pass, front to back: a test case is dropped when every pair it
    contributes is covered by the other test cases still in the suite. *)
Fixpoint minimize (parameters : dict) (kept later : list test_case)
  : list test_case :=
  match later with
  | [] => kept
  | test :: later' =>
      if bool_decide (test_case_pairs parameters test
                      ⊆ suite_pairs parameters (kept ++ later'))
      then minimize parameters kept later'
      else minimize parameters (kept ++ [test]) later'
  end.

(** Modelled from the spec: section 4.2, GreedySuiteBuilder, with the safety
    bound equal to the number of required pairs; [minimization] is the
    policy choice of step 5. *)
Definition GreedySuiteBuilder (candidate : dict → gset Pair → test_case)
    (minimization : bool) (parameters : dict) (required : gset Pair)
  : exn + list test_case :=
  match greedy_loop (candidate parameters) parameters required (size required) ∅ [] with
  | inl e => inl e
  | inr suite => inr (if minimization then minimize parameters [] suite else suite)
  end.

(** Modelled from the spec: section 6, [EnumerateAndBuild]. *)
Definition EnumerateAndBuild (candidate : dict → gset Pair → test_case)
    (minimization : bool) (parameters : dict)
  : exn + (list test_case * gset Pair) :=
  match PairEnumerator parameters with
  | inl e => inl e
  | inr required =>
      match GreedySuiteBuilder candidate minimization parameters required with
      | inl e => inl e
      | inr suite => inr (suite, required)
      end
  end.

(** *** CoverageAnalyzer (section 4.3) *)

(** Modelled from the spec: section 4.3, the sequential pass over the suite:
    [seen] is the set of pairs of the earlier test cases; the result is
    coveredPairs, testCasePairs and newUniqueCounts. *)
Fixpoint analyze (parameters : dict) (seen : gset Pair) (suite : list test_case)
  : gset Pair * list (gset Pair) * list nat :=
  match suite with
  | [] => (seen, [], [])
  | test :: rest =>
      let pairs := test_case_pairs parameters test in
      let '(coveredPairs, testCasePairs, newUniqueCounts) :=
        analyze parameters (seen ∪ pairs) rest in
      (coveredPairs, pairs :: testCasePairs, size (pairs ∖ seen) :: newUniqueCounts)
  end.

(** Modelled from the spec: section 6, [AnalyzeCoverage]. The analyzer
    reports what it observes; the required universe does not change it. *)
Definition AnalyzeCoverage (testSuite : list test_case) (requiredPairs : gset Pair)
    (parameters : dict) : gset Pair * list (gset Pair) * list nat :=
  analyze parameters ∅ testSuite.

(** The module [algo] as main.py sees it, over the model above. *)
Definition spec_algo (candidate : dict → gset Pair → test_case)
    (minimization : bool) : AlgoModule := {|
  pair_set := gset Pair;
  pair_set_len := size;
  find_minimum_test_suite := EnumerateAndBuild candidate minimization;
  count_unique_pairs := λ tests all_pairs parameters,
    inr (AnalyzeCoverage tests all_pairs parameters)
|}.

End Algo.

(** ** The examples of section 8 of the specification *)

Module Examples.
Import Main Algo.

(** Two parameters of two values each. *)
Definition two_by_two : dict :=
  [ ("A", ["a1"; "a2"]); ("B", ["b1"; "b2"]) ].

(** The suite that the builder returns for [two_by_two] when the score
    counts the pairs still reachable. *)
Definition two_by_two_suite : list test_case :=
  [ ["a1"; "b1"]; ["a2"; "b1"]; ["a1"; "b2"]; ["a2"; "b2"] ].

(** The classical covering-array example. *)
Definition browsers : dict :=
  [ ("Browser", ["Chrome"; "Firefox"]);
    ("OS", ["Windows"; "Mac"]);
    ("Language", ["EN"; "FR"]) ].

(** The four rows that the specification gives for [browsers]. *)
Definition browsers_suite : list test_case :=
  [ ["Chrome"; "Windows"; "EN"]; ["Chrome"; "Mac"; "FR"];
    ["Firefox"; "Windows"; "FR"]; ["Firefox"; "Mac"; "EN"] ].

(** The two-by-two example with a third parameter that has the name of the
    last header of the results table; the Add button accepts it. *)
Definition with_header_name : dict :=
  [ ("A", ["a1"; "a2"]); ("B", ["b1"; "b2"]); ("New Unique Pairs", ["x"; "y"]) ].

(** A parameter set that the generate section refuses: one parameter. *)
Definition single_parameter : dict := [ ("A", ["a1"; "a2"]) ].

(** The module [algo] with the widely read score and no minimization. *)
Definition reachable_algo : AlgoModule :=
  spec_algo (greedy_candidate score_reachable) false.

End Examples.

(** ** One run of the script *)

Module App.
Import PyStr.
Export Main.

(** [',' in s] *)
Fixpoint has_comma (s : string) : bool :=
  match s with
  | EmptyString => false
  | String c s' => Ascii.eqb c ","%char || has_comma s'
  end.

(** A value as the validation stores it: not empty, without whitespace at
    either end, without a comma. *)
Definition value_clean (v : string) : Prop :=
  v ≠ "" ∧ strip v = v ∧ has_comma v = false.

(** Every stored value of every parameter is clean. *)
Definition parameters_clean (parameters : dict) : Prop :=
  Forall (Forall value_clean) (values parameters).

(** Line 100: the text that the edit box of a parameter shows before the
    user changes it. *)
Definition edit_box_text (values_list : list string) : string :=
  join ", " values_list.

(** The button pressed in a run of the script, with the contents of the
    text inputs it reads; a run has one pressed button at most. *)
Inductive press : Type :=
| press_none
| press_add (new_param new_values : string)
| press_update (param values : string)
| press_delete (param : string)
| press_generate.

(** [st.error] or [st.success] of a handler, as an element of the page. *)
Definition message_event (m : message) : event :=
  match m with
  | Error msg => st_error msg
  | Success msg => st_success msg
  end.

(** Lines 60-123: the handler of the pressed button. The Update and Delete
    buttons exist for the keys of the dictionary only (line 87); a press on
    a button that the page does not have is no press. *)
Definition handle (p : press) (parameters : dict) : dict * list event :=
  match p with
  | press_none | press_generate => (parameters, [])
  | press_add new_param new_values =>
      let '(parameters', m) := add_parameter new_param new_values parameters in
      (parameters', [message_event m])
  | press_update param values =>
      if contains param parameters then
        let '(parameters', m) := update_parameter param values parameters in
        (parameters', [message_event m])
      else (parameters, [])
  | press_delete param =>
      if contains param parameters then
        match delete_parameter param parameters with
        | Some (parameters', m) => (parameters', [message_event m])
        | None => (parameters, [])
        end
      else (parameters, [])
  end.

(** [main()], lines 45-189: initialization, the handler of the pressed
    button, and the generate section when its button is the pressed one. The
    result is the parameters of the session after the run and what the run
    rendered. *)
Definition main `{AlgoModule} (st : session_state) (p : press)
  : dict * list event :=
  let '(parameters, rendered) := handle p (initialize_session_state st) in
  (parameters,
   rendered ++ match p with
               | press_generate => generate parameters
               | _ => []
               end).

(** The parameters of the session after a sequence of runs, one press each;
    the session state persists from run to run. *)
Fixpoint session `{AlgoModule} (st : session_state) (presses : list press)
  : session_state :=
  match presses with
  | [] => st
  | p :: rest => session (Some (main st p).1) rest
  end.

End App.

(** ** Stand-ins for the module [algo] *)

Module Doubles.
Import Main.

(** A generator that finds no suite. *)
Definition no_suite_algo : AlgoModule := {|
  pair_set := unit;
  pair_set_len := λ _, 0;
  find_minimum_test_suite := λ _, inr ([], tt);
  count_unique_pairs := λ _ _ _, inr (tt, [], [])
|}.

(** A generator with one test, and an analysis that returns no count. *)
Definition no_count_algo : AlgoModule := {|
  pair_set := unit;
  pair_set_len := λ _, 1;
  find_minimum_test_suite := λ _, inr ([["a1"; "b1"]], tt);
  count_unique_pairs := λ _ _ _, inr (tt, [], [])
|}.

(** A generator whose one test has a value too many for two parameters. *)
Definition wide_test_algo : AlgoModule := {|
  pair_set := unit;
  pair_set_len := λ _, 1;
  find_minimum_test_suite := λ _, inr ([["a1"; "b1"; "c1"]], tt);
  count_unique_pairs := λ _ _ _, inr (tt, [], [1])
|}.

End Doubles.

(** * Properties *)

(** ** Strings *)

Module PyStrFacts.
Import PyStr.

Lemma truthy_false (s : string) : truthy s = false ↔ s = "".
Proof. destruct s; simpl; split; congruence. Qed.

Lemma truthy_true (s : string) : truthy s = true ↔ s ≠ "".
Proof. destruct s; simpl; split; congruence. Qed.

Lemma rstrip_empty (s : string) : rstrip s = "" ↔ all_space s = true.
Proof.
  induction s as [|c s IH]; simpl; [done|].
  destruct (rstrip s) eqn:Hr.
  - destruct (isspace c); simpl; [tauto|]. split; congruence.
  - split; [congruence|]. intros [_ Hs]%andb_true_iff.
    apply IH in Hs. congruence.
Qed.

Lemma all_space_lstrip (s : string) : all_space (lstrip s) = all_space s.
Proof.
  induction s as [|c s IH]; simpl; [done|].
  destruct (isspace c) eqn:Hc; simpl; [done|]. by rewrite Hc.
Qed.

(** The trimmed string is empty exactly for a string of whitespace only. *)
Lemma strip_empty (s : string) : strip s = "" ↔ all_space s = true.
Proof. unfold strip. by rewrite rstrip_empty, all_space_lstrip. Qed.

Lemma all_space_empty : all_space "" = true.
Proof. reflexivity. Qed.

Lemma comma_not_space : isspace ","%char = false.
Proof. reflexivity. Qed.

(** A string of whitespace has no comma: it is its own single segment. *)
Lemma split_all_space (s : string) :
  all_space s = true → split ","%char s = [s].
Proof.
  induction s as [|c s IH]; simpl; [done|].
  intros [Hc Hs]%andb_true_iff. rewrite (IH Hs).
  destruct (Ascii.eqb_spec c ","%char) as [->|]; [|done].
  rewrite comma_not_space in Hc. discriminate.
Qed.

Lemma len_set_le (l : list string) : len_set l ≤ length l.
Proof.
  unfold len_set. induction l as [|x l IH]; simpl; [done|].
  destruct (decide_rel _ x l); simpl; lia.
Qed.

(** [len(l) == len(set(l))] holds exactly when [l] has no duplicates. *)
Lemma len_set_eq (l : list string) : length l = len_set l ↔ NoDup l.
Proof.
  unfold len_set. induction l as [|x l IH]; simpl.
  - split; [constructor|done].
  - pose proof (len_set_le l) as Hle. unfold len_set in Hle.
    destruct (decide_rel _ x l) as [Hin|Hin]; simpl.
    + split; [lia|]. intros Hnd. apply NoDup_cons in Hnd as [? _]. done.
    + rewrite NoDup_cons. split.
      * intros Hlen. split; [done|]. apply IH. lia.
      * intros [_ Hnd]. apply IH in Hnd. lia.
Qed.

End PyStrFacts.

(** ** Validation of names and values *)

Module Validation.
Import PyStr PyStrFacts Main.

(** The list comprehension keeps, in input order, the trimmed segments that
    are not empty. *)
Lemma clean_values_filter (values : string) :
  clean_values values = filter (λ v, v ≠ "") (trimmed_segments values).
Proof.
  unfold clean_values, trimmed_segments.
  induction (split ","%char values) as [|seg segs IH]; [done|].
  rewrite fmap_cons, !filter_cons.
  destruct (decide (truthy (strip seg) = true)) as [Ht|Ht];
    destruct (decide (strip seg ≠ "")) as [Hs|Hs].
  - by rewrite fmap_cons, IH.
  - apply truthy_true in Ht. done.
  - apply truthy_true in Hs. done.
  - done.
Qed.

Lemma clean_values_all_space (values : string) :
  all_space values = true → clean_values values = [].
Proof.
  intros Hs. unfold clean_values. rewrite (split_all_space _ Hs).
  rewrite filter_cons, decide_False; [done|].
  apply strip_empty in Hs. rewrite Hs. simpl. done.
Qed.

(** Closes a goal [∃ msg, msg ≠ "" ∧ _ = (false, [], msg)] once the result
    is known. *)
Local Ltac refused := eexists; split; [|reflexivity]; discriminate.

(** The result of [validate_parameter_values], case by case. *)
Lemma validate_parameter_values_cases (values : string) :
  (2 ≤ length (clean_values values) ∧ NoDup (clean_values values)
   ∧ validate_parameter_values values = (true, clean_values values, ""))
  ∨ (¬ (2 ≤ length (clean_values values) ∧ NoDup (clean_values values))
     ∧ ∃ msg, msg ≠ "" ∧ validate_parameter_values values = (false, [], msg)).
Proof.
  unfold validate_parameter_values.
  destruct (negb (truthy values) || negb (truthy (strip values))) eqn:Hempty.
  - right. split; [|refused].
    assert (all_space values = true) as Hs.
    { apply orb_true_iff in Hempty as [H|H]; apply negb_true_iff in H.
      - apply truthy_false in H. by subst.
      - by apply truthy_false, strip_empty in H. }
    rewrite (clean_values_all_space _ Hs). simpl. lia.
  - destruct (clean_values values) as [|v vs] eqn:Hcv.
    { right. split; [simpl; lia | refused]. }
    destruct (negb (length (v :: vs) =? len_set (v :: vs))) eqn:Hdup.
    { right. split; [|refused].
      apply negb_true_iff, Nat.eqb_neq in Hdup.
      rewrite len_set_eq in Hdup. tauto. }
    apply negb_false_iff, Nat.eqb_eq, len_set_eq in Hdup.
    destruct (length (v :: vs) <? 2) eqn:Hlen.
    + right. apply Nat.ltb_lt in Hlen. split; [lia | refused].
    + left. apply Nat.ltb_ge in Hlen. done.
Qed.

(** C5, as amended: [validate_parameter_values] succeeds if and only if the
    comma-separated segments that are non-empty after trimming number at
    least 2 and contain no duplicates; on success it returns exactly these
    trimmed non-empty segments, in input order, with an empty message; on
    failure it returns the empty list with a non-empty error message. *)
Theorem validate_parameter_values_spec (values : string) :
  let kept := filter (λ v, v ≠ "") (trimmed_segments values) in
  ((validate_parameter_values values).1.1 = true ↔ 2 ≤ length kept ∧ NoDup kept)
  ∧ ((validate_parameter_values values).1.1 = true →
     validate_parameter_values values = (true, kept, ""))
  ∧ ((validate_parameter_values values).1.1 = false →
     (validate_parameter_values values).1.2 = []
     ∧ (validate_parameter_values values).2 ≠ "").
Proof.
  simpl. rewrite <- clean_values_filter.
  destruct (validate_parameter_values_cases values)
    as [(Hlen & Hnd & ->) | (Hno & msg & Hmsg & ->)]; simpl.
  - split_and!; [tauto | done | discriminate].
  - split_and!; [split; [discriminate | tauto] | discriminate | done].
Qed.

(** The amended C5 at the input ["x, y ,z"]: three values are returned. *)
Lemma validate_parameter_values_spec_witness :
  validate_parameter_values "x, y ,z" = (true, ["x"; "y"; "z"], "").
Proof.
  destruct (validate_parameter_values_spec "x, y ,z") as (_ & Hok & _).
  apply Hok. reflexivity.
Defined.

(** C5 as stated does not hold: for ["a,,b,"] the validation succeeds and
    returns a and b, although two of the four comma-separated values are
    empty after trimming. *)
Lemma validate_parameter_values_as_stated_fails :
  validate_parameter_values "a,,b," = (true, ["a"; "b"], "")
  ∧ ¬ values_ok_as_stated "a,,b,".
Proof.
  split; [reflexivity|]. intros (Hne & _ & _).
  apply Forall_forall with (x := "") in Hne; [done|].
  vm_compute. apply list_elem_of_In. simpl. tauto.
Qed.

(** C10: segments that are empty after trimming are discarded, not
    rejected: ["a,,b,"] has the four segments a, empty, b, empty, and the
    validation succeeds and returns a and b. *)
Theorem empty_segments_are_discarded :
  trimmed_segments "a,,b," = ["a"; ""; "b"; ""]
  ∧ validate_parameter_values "a,,b," = (true, ["a"; "b"], "").
Proof. split; reflexivity. Qed.

(** C6: [validate_parameter_name] fails exactly when the name is empty or
    consists only of whitespace, or when its trimmed form is the name of an
    existing parameter; a failure carries a message, and otherwise the
    result is success with the empty message. *)
Theorem validate_parameter_name_spec (parameters : dict) (name : string) :
  ((validate_parameter_name parameters name).1 = false
   ↔ name = "" ∨ all_space name = true ∨ strip name ∈ keys parameters)
  ∧ ((validate_parameter_name parameters name).1 = false →
     (validate_parameter_name parameters name).2 ≠ "")
  ∧ ((validate_parameter_name parameters name).1 = true →
     validate_parameter_name parameters name = (true, "")).
Proof.
  unfold validate_parameter_name.
  destruct (negb (truthy name) || negb (truthy (strip name))) eqn:Hempty.
  - simpl. split_and!; [|done|discriminate]. split; [|done]. intros _.
    apply orb_true_iff in Hempty as [H|H]; apply negb_true_iff in H.
    + left. by apply truthy_false.
    + right; left. by apply truthy_false, strip_empty in H.
  - apply orb_false_iff in Hempty as [H1 H2].
    apply negb_false_iff, truthy_true in H1, H2.
    assert (all_space name ≠ true) as Hns by by rewrite <- strip_empty.
    unfold contains. case_bool_decide as Hin; simpl.
    + split_and!; [|done|discriminate]. split; [tauto|done].
    + split_and!; [|discriminate|done]. split; [discriminate|].
      intros [?|[?|?]]; done.
Qed.

(** C6 at the name [" Fonts "] and the default parameters: refused, since
    the trimmed name exists. *)
Lemma validate_parameter_name_spec_witness :
  (validate_parameter_name default_parameters " Fonts ").1 = false.
Proof.
  apply (validate_parameter_name_spec default_parameters " Fonts ").
  right; right. vm_compute. apply list_elem_of_In. simpl. tauto.
Defined.

End Validation.

(** ** The parameter set under the button handlers *)

Module State.
Import PyStr PyStrFacts Main Validation.

Lemma keys_set (k : string) (v : list string) (d : dict) :
  keys (set k v d) = if decide (k ∈ keys d) then keys d else keys d ++ [k].
Proof.
  unfold keys. induction d as [|[k' v'] d IH]; csimpl; [done|].
  destruct (decide (k = k')) as [->|Hne]; csimpl.
  - rewrite decide_True; [done | by left].
  - rewrite IH. destruct (decide (k ∈ d.*1)) as [Hin|Hin].
    + rewrite decide_True; [done | by right].
    + rewrite decide_False; [done|]. by intros [?|?]%elem_of_cons.
Qed.

(** Assignment keeps the keys unique. *)
Lemma wf_set (k : string) (v : list string) (d : dict) :
  wf d → wf (set k v d).
Proof.
  unfold wf. rewrite keys_set. case_decide as Hin; [done|].
  intros Hnd. apply NoDup_app. split_and!; [done| |apply NoDup_singleton].
  intros x Hx ->%list_elem_of_singleton. done.
Qed.

Lemma values_set (P : list string → Prop) (k : string) (v : list string) (d : dict) :
  P v → Forall P (values d) → Forall P (values (set k v d)).
Proof.
  unfold values. intros Hv. induction d as [|[k' v'] d IH]; csimpl.
  - by repeat constructor.
  - intros [Hv' Hd]%Forall_cons. case_decide; csimpl; constructor; auto.
Qed.

Lemma parameters_ok_set (k : string) (v : list string) (d : dict) :
  2 ≤ length v → NoDup v → parameters_ok d → parameters_ok (set k v d).
Proof.
  intros Hlen Hnd [Hkeys Hvals]. split.
  - by apply wf_set.
  - by apply values_set.
Qed.

(** Deletion removes exactly one entry. *)
Lemma len_del (k : string) (d d' : dict) :
  del k d = Some d' → len d = S (len d').
Proof.
  unfold len. revert d'. induction d as [|[k' v'] d IH]; simpl; [done|].
  intros d'. case_decide.
  - by intros [= ->].
  - destruct (del k d) as [d''|]; simpl; [|done].
    intros [= <-]. simpl. by rewrite (IH d'').
Qed.

Lemma del_sublist (k : string) (d d' : dict) :
  del k d = Some d' → d' `sublist_of` d.
Proof.
  revert d'. induction d as [|[k' v'] d IH]; simpl; [done|].
  intros d'. case_decide.
  - intros [= ->]. by apply sublist_cons.
  - destruct (del k d) as [d''|]; simpl; [|done].
    intros [= <-]. apply sublist_skip. by apply IH.
Qed.

Lemma parameters_ok_del (k : string) (d d' : dict) :
  del k d = Some d' → parameters_ok d → parameters_ok d'.
Proof.
  intros Hsub%del_sublist [Hkeys Hvals]. split.
  - eapply sublist_NoDup; [done|]. by apply fmap_sublist.
  - rewrite Forall_forall in Hvals |- *. intros vs Hin. apply Hvals.
    by eapply (sublist_subseteq _ _ (fmap_sublist snd _ _ Hsub)).
Qed.

Lemma parameters_ok_default : parameters_ok default_parameters.
Proof.
  unfold parameters_ok. apply (bool_decide_unpack _). vm_compute. exact I.
Qed.

(** C7: initialization, adding a parameter, updating the values of a
    parameter (and deleting one) keep the invariant of the parameter set:
    unique names, and at least 2 pairwise distinct values per parameter. *)
Theorem operations_preserve_parameters_ok :
  (∀ st : session_state,
     (∀ parameters, st = Some parameters → parameters_ok parameters) →
     parameters_ok (initialize_session_state st))
  ∧ (∀ new_param new_values parameters,
       parameters_ok parameters →
       parameters_ok (add_parameter new_param new_values parameters).1)
  ∧ (∀ param values parameters,
       parameters_ok parameters →
       parameters_ok (update_parameter param values parameters).1)
  ∧ (∀ param parameters parameters' msg,
       parameters_ok parameters →
       delete_parameter param parameters = Some (parameters', msg) →
       parameters_ok parameters').
Proof.
  split_and!.
  - intros [parameters|] Hst; simpl; [by apply Hst | apply parameters_ok_default].
  - intros new_param new_values parameters Hok. unfold add_parameter.
    destruct (validate_parameter_name parameters new_param) as [[] name_error];
      simpl; [|done].
    destruct (validate_parameter_values_cases new_values)
      as [(Hlen & Hnd & ->) | (_ & msg & _ & ->)]; simpl; [|done].
    by apply parameters_ok_set.
  - intros param values parameters Hok. unfold update_parameter.
    destruct (validate_parameter_values_cases values)
      as [(Hlen & Hnd & ->) | (_ & msg & _ & ->)]; simpl; [|done].
    by apply parameters_ok_set.
  - intros param parameters parameters' msg Hok. unfold delete_parameter.
    destruct (len parameters <=? 2); [by intros [= <- _]|].
    destruct (del param parameters) as [d|] eqn:Hdel; simpl; [|done].
    intros [= <- _]. by eapply parameters_ok_del.
Qed.

(** C7 on a session that starts empty: after initialization and after
    adding the parameter Theme with the values light and dark, the
    invariant holds. *)
Lemma operations_preserve_parameters_ok_witness :
  parameters_ok
    (add_parameter "Theme" "light, dark" (initialize_session_state None)).1.
Proof.
  destruct operations_preserve_parameters_ok as (Hinit & Hadd & _).
  apply Hadd, Hinit. intros parameters Hst. discriminate Hst.
Defined.

(** C9: with 2 or fewer parameters the delete handler reports an error and
    leaves the parameter set as it is; a deletion that does happen removes
    one parameter of more than 2; so a parameter set of at least 2
    parameters keeps at least 2 through deletion. *)
Theorem delete_keeps_two_parameters (param : string) (parameters : dict) :
  (len parameters ≤ 2 →
   delete_parameter param parameters
   = Some (parameters, Error "Cannot delete: minimum 2 parameters required"))
  ∧ (∀ parameters' msg,
       delete_parameter param parameters = Some (parameters', msg) →
       parameters' = parameters
       ∨ (2 < len parameters ∧ len parameters = S (len parameters')))
  ∧ (∀ parameters' msg,
       delete_parameter param parameters = Some (parameters', msg) →
       2 ≤ len parameters → 2 ≤ len parameters').
Proof.
  unfold delete_parameter.
  destruct (len parameters <=? 2) eqn:Hle.
  - apply Nat.leb_le in Hle. split_and!; [done | |].
    + intros ? ? [= <- _]. by left.
    + by intros ? ? [= <- _].
  - apply Nat.leb_gt in Hle. split_and!; [lia | |].
    + intros parameters' msg.
      destruct (del param parameters) as [d|] eqn:Hdel; simpl; [|done].
      intros [= <- _]. right. split; [done|]. by eapply len_del.
    + intros parameters' msg.
      destruct (del param parameters) as [d|] eqn:Hdel; simpl; [|done].
      intros [= <- _] _. apply len_del in Hdel. lia.
Qed.

(** C9 at two parameters: deleting A is refused. *)
Lemma delete_keeps_two_parameters_witness :
  delete_parameter "A" [("A", ["a1"; "a2"]); ("B", ["b1"; "b2"])]
  = Some ([("A", ["a1"; "a2"]); ("B", ["b1"; "b2"])],
          Error "Cannot delete: minimum 2 parameters required").
Proof.
  apply (delete_keeps_two_parameters "A"
           [("A", ["a1"; "a2"]); ("B", ["b1"; "b2"])]).
  vm_compute. lia.
Defined.

End State.


(** ** Coverage analysis *)

Module Coverage.
Import PyStr Main Algo.

#[global] Typeclasses Opaque suite_pairs test_case_pairs.

Lemma suite_pairs_nil (parameters : dict) : suite_pairs parameters [] = ∅.
Proof. reflexivity. Qed.

Lemma suite_pairs_cons (parameters : dict) (test : test_case) (suite : list test_case) :
  suite_pairs parameters (test :: suite)
  = test_case_pairs parameters test ∪ suite_pairs parameters suite.
Proof. reflexivity. Qed.

Lemma suite_pairs_app (parameters : dict) (suite1 suite2 : list test_case) :
  suite_pairs parameters (suite1 ++ suite2)
  = suite_pairs parameters suite1 ∪ suite_pairs parameters suite2.
Proof.
  unfold suite_pairs. rewrite fmap_app. apply leibniz_equiv, union_list_app.
Qed.

Lemma suite_pairs_snoc (parameters : dict) (suite : list test_case) (test : test_case) :
  suite_pairs parameters (suite ++ [test])
  = suite_pairs parameters suite ∪ test_case_pairs parameters test.
Proof.
  rewrite suite_pairs_app, suite_pairs_cons, suite_pairs_nil. set_solver.
Qed.

(** A pair is covered by a suite when one of its test cases covers it. *)
Lemma elem_of_suite_pairs (parameters : dict) (suite : list test_case) (p : Pair) :
  p ∈ suite_pairs parameters suite
  ↔ ∃ test, test ∈ suite ∧ p ∈ test_case_pairs parameters test.
Proof.
  unfold suite_pairs. rewrite elem_of_union_list. split.
  - intros (X & (test & -> & Hin)%list_elem_of_fmap & Hp). eauto.
  - intros (test & Hin & Hp). exists (test_case_pairs parameters test).
    split; [|done]. apply list_elem_of_fmap. eauto.
Qed.

(** What the sequential pass returns, for any set of pairs seen before. *)
Lemma analyze_spec (parameters : dict) (suite : list test_case) :
  ∀ seen,
    (analyze parameters seen suite).1.1 = seen ∪ suite_pairs parameters suite
    ∧ (analyze parameters seen suite).1.2 = test_case_pairs parameters <$> suite
    ∧ length (analyze parameters seen suite).2 = length suite
    ∧ size seen + sum_list (analyze parameters seen suite).2
      = size (analyze parameters seen suite).1.1
    ∧ ∀ i test, suite !! i = Some test →
        (analyze parameters seen suite).2 !! i
        = Some (size (test_case_pairs parameters test
                      ∖ (seen ∪ suite_pairs parameters (take i suite)))).
Proof.
  induction suite as [|test rest IH]; intros seen.
  - simpl. rewrite suite_pairs_nil.
    split_and!; [set_solver | done | done | lia |].
    intros i t. by rewrite lookup_nil.
  - simpl. specialize (IH (seen ∪ test_case_pairs parameters test)).
    destruct (analyze parameters (seen ∪ test_case_pairs parameters test) rest)
      as [[cov per] counts].
    cbn [fst snd] in *. destruct IH as (-> & -> & Hlen & Hsum & Hnth).
    split_and!.
    + rewrite suite_pairs_cons. set_solver.
    + done.
    + simpl. by rewrite Hlen.
    + rewrite <- Hsum, (size_union_alt seen (test_case_pairs parameters test)).
      simpl. lia.
    + intros [|i] t Hi; simpl in Hi.
      * injection Hi as <-. simpl. rewrite suite_pairs_nil. do 2 f_equal.
        set_solver.
      * simpl. rewrite (Hnth i t Hi), suite_pairs_cons. do 2 f_equal.
        set_solver.
Qed.

(** A pair covered by a suite is attributed to some test case. *)
Lemma attributed_exists (parameters : dict) (suite : list test_case) (p : Pair) :
  p ∈ suite_pairs parameters suite → ∃ i, attributed parameters suite i p.
Proof.
  induction suite as [|test suite IH] using rev_ind.
  - rewrite suite_pairs_nil. set_solver.
  - rewrite suite_pairs_snoc.
    destruct (decide (p ∈ suite_pairs parameters suite)) as [Hin|Hnin].
    + intros _. destruct (IH Hin) as (i & t & Hi & Hp & Hfirst).
      pose proof (lookup_lt_Some _ _ _ Hi) as Hlt.
      exists i, t. split_and!; [by rewrite lookup_app_l | done |].
      by rewrite take_app_le by lia.
    + intros Hp. exists (length suite), test.
      split_and!; [apply list_lookup_middle; done | set_solver |].
      by rewrite take_app_length.
Qed.

(** A pair is attributed to one test case at most: the first that covers
    it. *)
Lemma attributed_unique (parameters : dict) (suite : list test_case) (p : Pair)
    (i j : nat) :
  attributed parameters suite i p → attributed parameters suite j p → i = j.
Proof.
  assert (∀ i j, i < j → attributed parameters suite i p →
                 attributed parameters suite j p → False) as Hlt.
  { clear i j. intros i j Hij (t & Hi & Hp & _) (_ & _ & _ & Hfirst).
    apply Hfirst, elem_of_suite_pairs. exists t. split; [|done].
    apply list_elem_of_lookup. exists i. by rewrite lookup_take_lt. }
  intros Hi Hj. destruct (Nat.lt_trichotomy i j) as [?|[?|?]]; [|done|];
    exfalso; eauto.
Qed.

(** C3: the new-unique counts of the analysis add up to the number of
    covered pairs; the count of a test case is the number of pairs
    attributed to it, those it covers and no earlier test case covers; and
    each covered pair is attributed to exactly one test case. *)
Theorem new_unique_counts_sum (testSuite : list test_case)
    (requiredPairs : gset Pair) (parameters : dict) :
  let '(coveredPairs, testCasePairs, newUniqueCounts) :=
    AnalyzeCoverage testSuite requiredPairs parameters in
  sum_list newUniqueCounts = size coveredPairs
  ∧ length newUniqueCounts = length testSuite
  ∧ (∀ i test, testSuite !! i = Some test →
       ∃ new : gset Pair,
         (∀ p, p ∈ new ↔ attributed parameters testSuite i p)
         ∧ newUniqueCounts !! i = Some (size new))
  ∧ (∀ p, p ∈ coveredPairs →
       ∃ i, attributed parameters testSuite i p
            ∧ ∀ j, attributed parameters testSuite j p → j = i).
Proof.
  unfold AnalyzeCoverage.
  destruct (analyze_spec parameters testSuite ∅) as (Hcov & _ & Hlen & Hsum & Hnth).
  destruct (analyze parameters ∅ testSuite) as [[cov per] counts].
  cbn [fst snd] in *.
  rewrite size_empty in Hsum. split_and!; [done | done | |].
  - intros i test Hi. eexists. split; [|by apply Hnth].
    intros p. unfold attributed. rewrite Hi. split.
    + intros Hp. exists test. set_solver.
    + intros (t & [= <-] & Hp & Hfirst). set_solver.
  - intros p Hp. subst cov.
    destruct (attributed_exists parameters testSuite p) as [i Hi]; [set_solver|].
    exists i. split; [done|]. intros j Hj. by eapply attributed_unique.
Qed.

(** C3 on the four rows of the classical example: 3 + 3 + 3 + 3 new pairs
    for 12 covered pairs. *)
Lemma new_unique_counts_sum_witness :
  sum_list (AnalyzeCoverage Examples.browsers_suite ∅ Examples.browsers).2
  = size (AnalyzeCoverage Examples.browsers_suite ∅ Examples.browsers).1.1.
Proof.
  pose proof (new_unique_counts_sum Examples.browsers_suite ∅ Examples.browsers) as H.
  destruct (AnalyzeCoverage Examples.browsers_suite ∅ Examples.browsers)
    as [[coveredPairs testCasePairs] newUniqueCounts].
  exact (proj1 H).
Defined.

End Coverage.

(** ** The universe of required pairs *)

Module Enumeration.
Import PyStr Main Algo.

Lemma sum_list_with_fmap {A B} (f : B → nat) (g : A → B) (l : list A) :
  sum_list_with f (g <$> l) = sum_list_with (f ∘ g) l.
Proof. induction l as [|x l IH]; csimpl; [done|]. by rewrite IH. Qed.

Lemma sum_list_with_ext {A} (f g : A → nat) (l : list A) :
  (∀ x, x ∈ l → f x = g x) → sum_list_with f l = sum_list_with g l.
Proof.
  induction l as [|x l IH]; intros Hfg; simpl; [done|].
  rewrite Hfg, IH; [done | | by left]. intros y Hy. apply Hfg. by right.
Qed.

Lemma sum_list_with_mul {A} (c : nat) (f : A → nat) (l : list A) :
  sum_list_with (λ x, c * f x) l = c * sum_list_with f l.
Proof. induction l as [|x l IH]; simpl; [lia|]. rewrite IH. lia. Qed.

Lemma domain_size_0 (item : string * list string) (d : dict) :
  domain_size (item :: d) 0 = length item.2.
Proof. reflexivity. Qed.

Lemma domain_size_S (item : string * list string) (d : dict) (j : nat) :
  domain_size (item :: d) (S j) = domain_size d j.
Proof. reflexivity. Qed.

(** The number of assignments of a parameter set is the sum of the domain
    sizes. *)
Lemma length_assignments (d : dict) :
  length (d ≫= assignments_of)
  = sum_list_with (domain_size d) (seq 0 (len d)).
Proof.
  induction d as [|item rest IH].
  - reflexivity.
  - rewrite bind_cons, length_app, IH. unfold len. simpl length.
    rewrite <- cons_seq. simpl sum_list_with. rewrite domain_size_0.
    rewrite <- fmap_S_seq, sum_list_with_fmap.
    unfold assignments_of at 1. rewrite length_fmap. f_equal.
Qed.

Lemma length_product {A B C} (f : A → B → C) (la : list A) (lb : list B) :
  length (a ← la; b ← lb; [f a b]) = length la * length lb.
Proof.
  induction la as [|a la IH]; [reflexivity|].
  rewrite bind_cons, length_app, IH. simpl. f_equal. clear IH.
  induction lb as [|b lb IHb]; [reflexivity|].
  rewrite bind_cons. simpl. by rewrite IHb.
Qed.

Lemma sum_over_index_pairs_cons (item : string * list string) (rest : dict) :
  sum_over_index_pairs (item :: rest)
  = length item.2 * sum_list_with (domain_size rest) (seq 0 (len rest))
    + sum_over_index_pairs rest.
Proof.
  unfold sum_over_index_pairs, len. simpl length.
  rewrite <- cons_seq. simpl sum_list_with at 1. f_equal.
  - rewrite Nat.sub_0_r, <- fmap_S_seq, sum_list_with_fmap.
    rewrite <- sum_list_with_mul. apply sum_list_with_ext. intros j _.
    simpl. by rewrite domain_size_0, domain_size_S.
  - rewrite <- fmap_S_seq, sum_list_with_fmap.
    apply sum_list_with_ext. intros i _. simpl.
    rewrite <- fmap_S_seq, sum_list_with_fmap.
    apply sum_list_with_ext. intros j _. simpl.
    by rewrite !domain_size_S.
Qed.

(** The enumeration has one pair per index pair i < j and per two values. *)
Lemma length_pair_list (d : dict) :
  length (pair_list d) = sum_over_index_pairs d.
Proof.
  induction d as [|item rest IH]; [done|].
  rewrite sum_over_index_pairs_cons. simpl pair_list.
  rewrite length_app, length_product, IH, length_assignments.
  unfold assignments_of. by rewrite length_fmap.
Qed.

(** Two pairs are equal when their members are, in one order or the other. *)
Lemma mk_pair_eq (a b a' b' : assignment) :
  mk_pair a b = mk_pair a' b' → (a = a' ∧ b = b') ∨ (a = b' ∧ b = a').
Proof.
  unfold mk_pair. intros Heq.
  assert (a ∈ ({[a'; b']} : Pair)) as Ha by (rewrite <- Heq; set_solver).
  assert (b ∈ ({[a'; b']} : Pair)) as Hb by (rewrite <- Heq; set_solver).
  assert (a' ∈ ({[a; b]} : Pair)) as Ha' by (rewrite Heq; set_solver).
  assert (b' ∈ ({[a; b]} : Pair)) as Hb' by (rewrite Heq; set_solver).
  set_solver.
Qed.

Lemma mk_pair_comm (a b : assignment) : mk_pair a b = mk_pair b a.
Proof. unfold mk_pair. set_solver. Qed.

Lemma elem_of_assignments (d : dict) (a : assignment) :
  a ∈ d ≫= assignments_of
  ↔ ∃ j item, d !! j = Some item ∧ a.1 = item.1 ∧ a.2 ∈ item.2.
Proof.
  rewrite list_elem_of_bind. unfold assignments_of. split.
  - intros (item & (v & -> & Hv)%list_elem_of_fmap & (j & Hj)%list_elem_of_lookup).
    exists j, item. done.
  - intros (j & item & Hj & Hname & Hv). exists item. split.
    + apply list_elem_of_fmap. exists a.2. split; [|done].
      destruct a as [n v]. simpl in *. by subst.
    + by eapply list_elem_of_lookup_2.
Qed.

Lemma assignment_name_in_keys (d : dict) (a : assignment) :
  a ∈ d ≫= assignments_of → a.1 ∈ keys d.
Proof.
  intros (j & item & Hj & -> & _)%elem_of_assignments.
  unfold keys. apply list_elem_of_fmap. exists item. split; [done|].
  by eapply list_elem_of_lookup_2.
Qed.

Lemma NoDup_assignments (d : dict) :
  NoDup (keys d) → Forall NoDup (values d) → NoDup (d ≫= assignments_of).
Proof.
  unfold keys, values. induction d as [|[name vs] rest IH]; csimpl.
  - constructor.
  - intros [Hname Hkeys]%NoDup_cons [Hvs Hvals]%Forall_cons.
    apply NoDup_app. split_and!.
    + unfold assignments_of. simpl. apply NoDup_fmap_2; [|done].
      by intros v w [= ->].
    + intros a (v & -> & _)%list_elem_of_fmap Hin%assignment_name_in_keys. done.
    + by apply IH.
Qed.

(** The members of an enumerated pair are assignments of the parameters. *)
Lemma elem_of_pair_list_names (d : dict) (p : Pair) :
  p ∈ pair_list d → ∀ a, a ∈ p → a.1 ∈ keys d.
Proof.
  induction d as [|item rest IH]; simpl.
  - by intros ?%elem_of_nil.
  - intros [Hp|Hp]%elem_of_app a Ha.
    + apply list_elem_of_bind in Hp as (a1 & Hp & (v & -> & Hv)%list_elem_of_fmap).
      apply list_elem_of_bind in Hp as (b & ->%list_elem_of_singleton & Hb).
      apply assignment_name_in_keys in Hb. unfold keys in *.
      unfold mk_pair in Ha. apply elem_of_union in Ha as [Ha|Ha];
        apply elem_of_singleton in Ha; subst a; csimpl; [by left | by right].
    + unfold keys in *. csimpl. right. by eapply IH.
Qed.

(** No pair is enumerated twice, whatever the order of its members. *)
Lemma NoDup_pair_list (d : dict) :
  NoDup (keys d) → Forall NoDup (values d) → NoDup (pair_list d).
Proof.
  induction d as [|[name vs] rest IH]; simpl.
  - constructor.
  - unfold keys, values. csimpl.
    intros [Hname Hkeys]%NoDup_cons [Hvs Hvals]%Forall_cons.
    pose proof (NoDup_assignments rest Hkeys Hvals) as Hrest.
    apply NoDup_app. split_and!.
    + apply NoDup_bind.
      * intros a1 a2 p (v1 & -> & _)%list_elem_of_fmap (v2 & -> & _)%list_elem_of_fmap
          (b1 & ->%list_elem_of_singleton & Hb1)%list_elem_of_bind
          (b2 & Heq%list_elem_of_singleton & Hb2)%list_elem_of_bind.
        simpl in *. apply mk_pair_eq in Heq as [[? _]|[_ ->]]; [done|].
        apply assignment_name_in_keys in Hb1. done.
      * intros a (v & -> & _)%list_elem_of_fmap. apply NoDup_bind; [| |done].
        -- intros b1 b2 p _ _ ->%list_elem_of_singleton Heq%list_elem_of_singleton.
           simpl in *. apply mk_pair_eq in Heq as [[_ ?]|[-> <-]]; done.
        -- intros b _. apply NoDup_singleton.
      * unfold assignments_of. simpl. apply NoDup_fmap_2; [|done].
        by intros v w [= ->].
    + intros p (a & Hp & (v & -> & _)%list_elem_of_fmap)%list_elem_of_bind Hin.
      apply list_elem_of_bind in Hp as (b & ->%list_elem_of_singleton & _).
      apply Hname, (elem_of_pair_list_names rest _ Hin (name, v)).
      simpl. unfold mk_pair. set_solver.
    + by apply IH.
Qed.

(** The enumerated pairs are those of two values of two parameters at
    indices i < j. *)
Lemma elem_of_pair_list (d : dict) (p : Pair) :
  p ∈ pair_list d
  ↔ ∃ i j item1 item2 v w,
      i < j ∧ d !! i = Some item1 ∧ d !! j = Some item2
      ∧ v ∈ item1.2 ∧ w ∈ item2.2 ∧ p = mk_pair (item1.1, v) (item2.1, w).
Proof.
  induction d as [|item rest IH]; simpl.
  - split; [by intros ?%elem_of_nil|]. intros (i & j & ? & ? & ? & ? & _ & Hi & _).
    by destruct i.
  - rewrite elem_of_app, IH. clear IH. split.
    + intros [Hp|(i & j & item1 & item2 & v & w & Hij & Hi & Hj & Hv & Hw & ->)].
      * apply list_elem_of_bind in Hp as (a & Hp & (v & -> & Hv)%list_elem_of_fmap).
        apply list_elem_of_bind in Hp as (b & ->%list_elem_of_singleton & Hb).
        apply elem_of_assignments in Hb as (j & item2 & Hj & Hname & Hw).
        exists 0, (S j), item, item2, v, b.2. split_and!; try done; [lia|].
        destruct b as [n w]. simpl in *. by subst.
      * exists (S i), (S j), item1, item2, v, w. split_and!; try done. lia.
    + intros (i & j & item1 & item2 & v & w & Hij & Hi & Hj & Hv & Hw & ->).
      destruct j as [|j]; [lia|]. simpl in Hj. destruct i as [|i]; simpl in Hi.
      * injection Hi as ->. left. apply list_elem_of_bind.
        exists (item1.1, v). split.
        -- apply list_elem_of_bind. exists (item2.1, w). split; [by left|].
           apply elem_of_assignments. by exists j, item2.
        -- unfold assignments_of. apply list_elem_of_fmap. by exists v.
      * right. exists i, j, item1, item2, v, w. split_and!; try done. lia.
Qed.

Lemma precondition_valid (parameters : dict) :
  valid_parameters parameters → precondition parameters = true.
Proof.
  intros [Hlen [_ Hvals]]. unfold precondition.
  apply andb_true_iff. split; [by apply Nat.leb_le|].
  apply forallb_forall. intros item Hin%list_elem_of_In. apply Nat.leb_le.
  rewrite Forall_forall in Hvals. apply (Hvals item.2).
  unfold values. apply list_elem_of_fmap. eauto.
Qed.

(** C4: for a valid parameter set the enumerated universe of required pairs
    has exactly the sum, over the parameter-index pairs i < j, of
    |domain(Pi)| * |domain(Pj)| elements; no pair is enumerated twice, a pair
    being the set of its two members; and the universe is exactly the set of
    the pairs of two values of two distinct parameters. *)
Theorem required_pairs_count (parameters : dict) :
  valid_parameters parameters →
  ∃ requiredPairs,
    PairEnumerator parameters = inr requiredPairs
    ∧ size requiredPairs = sum_over_index_pairs parameters
    ∧ NoDup (pair_list parameters)
    ∧ ∀ p, p ∈ requiredPairs
        ↔ ∃ i j item1 item2 v w,
            i < j ∧ parameters !! i = Some item1 ∧ parameters !! j = Some item2
            ∧ v ∈ item1.2 ∧ w ∈ item2.2
            ∧ p = mk_pair (item1.1, v) (item2.1, w).
Proof.
  intros Hvalid. pose proof (precondition_valid _ Hvalid) as Hpre.
  destruct Hvalid as [_ [Hkeys Hvals]].
  assert (NoDup (pair_list parameters)) as Hnd.
  { apply NoDup_pair_list; [done|]. eapply Forall_impl; [done|]. by intros ? [_ ?]. }
  unfold PairEnumerator. rewrite Hpre. eexists. split_and!; [done | | done |].
  - by rewrite size_list_to_set, length_pair_list.
  - intros p. by rewrite elem_of_list_to_set, elem_of_pair_list.
Qed.

(** C4 on the classical example: 2*2 + 2*2 + 2*2 = 12 required pairs. *)
Lemma required_pairs_count_witness :
  valid_parameters Examples.browsers
  ∧ ∃ requiredPairs,
      PairEnumerator Examples.browsers = inr requiredPairs
      ∧ size requiredPairs = 12.
Proof.
  assert (valid_parameters Examples.browsers) as Hvalid.
  { unfold valid_parameters, parameters_ok.
    apply (bool_decide_unpack _). vm_compute. exact I. }
  split; [exact Hvalid|].
  destruct (required_pairs_count Examples.browsers Hvalid)
    as (requiredPairs & Henum & Hsize & _).
  exists requiredPairs. split; [exact Henum|]. rewrite Hsize. reflexivity.
Defined.

End Enumeration.

(** ** The greedy suite builder *)

Module Builder.
Import PyStr Main Algo Coverage Enumeration.

(** The fold of [pick]: the result is the start value or a later one, and
    no value scores higher. *)
Lemma fold_best_spec (score : string → nat) (rest : list string) :
  ∀ best,
    let r := foldl (λ best w, if score best <? score w then w else best) best rest in
    (r = best ∨ r ∈ rest) ∧ score best ≤ score r
    ∧ ∀ w, w ∈ rest → score w ≤ score r.
Proof.
  induction rest as [|x rest IH]; intros best; simpl.
  - split_and!; [by left | done | by intros w ?%elem_of_nil].
  - destruct (score best <? score x) eqn:Hlt.
    + apply Nat.ltb_lt in Hlt. destruct (IH x) as (Hr & Hle & Hmax).
      split_and!.
      * right. destruct Hr as [->|Hr]; [by left | by right].
      * lia.
      * intros w [->|Hw]%elem_of_cons; [done | by apply Hmax].
    + apply Nat.ltb_ge in Hlt. destruct (IH best) as (Hr & Hle & Hmax).
      split_and!.
      * destruct Hr as [->|Hr]; [by left | right; by right].
      * done.
      * intros w [->|Hw]%elem_of_cons; [lia | by apply Hmax].
Qed.

(** A value picked from a non-empty domain belongs to it. *)
Lemma pick_in_domain (score : string → nat) (domain : list string) :
  domain ≠ [] → pick score domain ∈ domain.
Proof.
  destruct domain as [|v rest]; [done|]. intros _. simpl.
  destruct (fold_best_spec score rest v) as ([->|Hr] & _ & _);
    [by left | by right].
Qed.

(** No value of the domain scores higher than the picked one. *)
Lemma pick_max (score : string → nat) (domain : list string) (w : string) :
  w ∈ domain → score w ≤ score (pick score domain).
Proof.
  destruct domain as [|v rest]; [by intros ?%elem_of_nil|]. simpl.
  destruct (fold_best_spec score rest v) as (_ & Hle & Hmax).
  intros [->|Hw]%elem_of_cons; [done | by apply Hmax].
Qed.

(** Whatever the scoring rule, a greedy candidate is a test case when no
    domain is empty. *)
Lemma greedy_values_is_test_case (score : scoring) (covered : gset Pair)
    (parameters : dict) :
  Forall (λ vs, vs ≠ []) (values parameters) →
  ∀ chosen, is_test_case parameters (greedy_values score covered chosen parameters).
Proof.
  unfold is_test_case, values.
  induction parameters as [|[name domain] later IH]; csimpl; intros Hne chosen.
  - constructor.
  - apply Forall_cons in Hne as [Hdom Hne]. constructor.
    + by apply pick_in_domain.
    + by apply IH.
Qed.

Lemma precondition_nonempty (parameters : dict) :
  precondition parameters = true → Forall (λ vs, vs ≠ []) (values parameters).
Proof.
  unfold precondition. intros [_ Hall]%andb_true_iff.
  rewrite forallb_forall in Hall. apply Forall_forall. unfold values.
  intros vs (item & -> & Hin)%list_elem_of_fmap.
  apply list_elem_of_In, Hall, Nat.leb_le in Hin.
  intros Hnil. rewrite Hnil in Hin. simpl in Hin. lia.
Qed.

(** The assignments of a test case are assignments of the parameters. *)
Lemma test_case_assignments (parameters : dict) (test : test_case) :
  is_test_case parameters test →
  ∀ a, a ∈ zip (keys parameters) test → a ∈ parameters ≫= assignments_of.
Proof.
  unfold is_test_case, keys. induction 1 as [|item v rest vs Hv _ IH]; csimpl.
  - by intros a ?%elem_of_nil.
  - intros a [->|Ha]%elem_of_cons; apply elem_of_app.
    + left. unfold assignments_of. apply list_elem_of_fmap. by exists v.
    + right. by apply IH.
Qed.

(** The pairs of a test case are required pairs. *)
Lemma test_case_pairs_required (parameters : dict) (test : test_case) :
  is_test_case parameters test →
  test_case_pairs parameters test ⊆ list_to_set (pair_list parameters).
Proof.
  unfold test_case_pairs. intros Htest p.
  rewrite !elem_of_list_to_set. revert p.
  unfold is_test_case, keys in *.
  induction Htest as [|item v rest vs Hv Hrest IH]; csimpl.
  - by intros p ?%elem_of_nil.
  - intros p [Hp|Hp]%elem_of_app; apply elem_of_app.
    + left. apply list_elem_of_fmap in Hp as (b & -> & Hb).
      apply list_elem_of_bind. exists (item.1, v). split.
      * apply list_elem_of_bind. exists b. split; [by left|].
        by apply (test_case_assignments rest vs).
      * unfold assignments_of. apply list_elem_of_fmap. by exists v.
    + right. by apply IH.
Qed.

Lemma suite_pairs_required (parameters : dict) (suite : list test_case) :
  Forall (is_test_case parameters) suite →
  suite_pairs parameters suite ⊆ list_to_set (pair_list parameters).
Proof.
  intros Hall p (test & Hin & Hp)%elem_of_suite_pairs.
  rewrite Forall_forall in Hall.
  by apply (test_case_pairs_required parameters test (Hall _ Hin)).
Qed.

(** The loop keeps the coverage state equal to the pairs of the suite built
    so far, and returns only when the universe is covered. *)
Lemma greedy_loop_covers (candidate : gset Pair → test_case) (parameters : dict)
    (required : gset Pair) (bound : nat) :
  ∀ covered suite result,
    covered = suite_pairs parameters suite →
    greedy_loop candidate parameters required bound covered suite = inr result →
    required ⊆ suite_pairs parameters result
    ∧ ∃ added, result = suite ++ added
        ∧ length added ≤ bound
        ∧ Forall (λ test, ∃ c, test = candidate c) added.
Proof.
  induction bound as [|bound IH]; intros covered suite result Hcov; simpl.
  - case_bool_decide as Hdone; [|done]. intros [= <-]. subst covered.
    split; [done|]. exists []. by rewrite app_nil_r.
  - case_bool_decide as Hdone.
    + intros [= <-]. subst covered. split; [done|]. exists [].
      rewrite app_nil_r. split_and!; [done | simpl; lia | done].
    + intros Hloop. apply IH in Hloop as (Hreq & added & -> & Hlen & Hall).
      * split; [done|]. exists (candidate covered :: added).
        rewrite <- app_assoc. split_and!; [done | simpl; lia |].
        constructor; [by eexists | done].
      * by rewrite suite_pairs_snoc, Hcov.
Qed.

(** The minimization pass keeps the pairs covered by the suite, and only
    drops test cases. *)
Lemma minimize_spec (parameters : dict) (later : list test_case) :
  ∀ kept,
    suite_pairs parameters (minimize parameters kept later)
    = suite_pairs parameters (kept ++ later)
    ∧ minimize parameters kept later `sublist_of` kept ++ later.
Proof.
  induction later as [|test later IH]; intros kept; simpl.
  - by rewrite app_nil_r.
  - case_bool_decide as Hdrop.
    + destruct (IH kept) as [-> Hsub]. split.
      * rewrite !suite_pairs_app, suite_pairs_cons.
        rewrite suite_pairs_app in Hdrop. set_solver.
      * etrans; [done|]. apply sublist_app; [done|]. by apply sublist_cons.
    + destruct (IH (kept ++ [test])) as [-> Hsub].
      by rewrite <- app_assoc in *.
Qed.

(** What a successful generation returns, for any rule that builds the
    candidates. *)
Lemma EnumerateAndBuild_covers (candidate : dict → gset Pair → test_case)
    (minimization : bool) (parameters : dict) (testSuite : list test_case)
    (requiredPairs : gset Pair) :
  EnumerateAndBuild candidate minimization parameters
    = inr (testSuite, requiredPairs) →
  precondition parameters = true
  ∧ requiredPairs = list_to_set (pair_list parameters)
  ∧ requiredPairs ⊆ suite_pairs parameters testSuite
  ∧ Forall (λ test, ∃ c, test = candidate parameters c) testSuite.
Proof.
  unfold EnumerateAndBuild, PairEnumerator, GreedySuiteBuilder.
  destruct (precondition parameters); [|done].
  destruct (greedy_loop _ _ _ _ _ _) as [e|suite] eqn:Hloop; [done|].
  intros [= <- <-].
  apply greedy_loop_covers in Hloop as (Hreq & added & -> & _ & Hall); [|done].
  simpl in *. split_and!; [done | done | |].
  - destruct minimization; [|done].
    destruct (minimize_spec parameters added []) as [-> _]. done.
  - destruct minimization; [|done].
    destruct (minimize_spec parameters added []) as [_ Hsub].
    rewrite Forall_forall in Hall |- *. intros test Hin. apply Hall.
    by eapply (sublist_subseteq _ _ Hsub).
Qed.

(** A generation succeeds when the precondition holds and the builder
    returns a suite. *)
Lemma EnumerateAndBuild_success (candidate : dict → gset Pair → test_case)
    (minimization : bool) (parameters : dict) (suite : list test_case) :
  precondition parameters = true →
  GreedySuiteBuilder candidate minimization parameters
    (list_to_set (pair_list parameters)) = inr suite →
  EnumerateAndBuild candidate minimization parameters
  = inr (suite, list_to_set (pair_list parameters)).
Proof.
  intros Hpre Hbuild. unfold EnumerateAndBuild, PairEnumerator.
  by rewrite Hpre, Hbuild.
Qed.

(** A generation fails when the builder does. *)
Lemma EnumerateAndBuild_failure (candidate : dict → gset Pair → test_case)
    (minimization : bool) (parameters : dict) (e : exn) :
  precondition parameters = true →
  GreedySuiteBuilder candidate minimization parameters
    (list_to_set (pair_list parameters)) = inl e →
  EnumerateAndBuild candidate minimization parameters = inl e.
Proof.
  intros Hpre Hbuild. unfold EnumerateAndBuild, PairEnumerator.
  by rewrite Hpre, Hbuild.
Qed.

(** C1: after a successful generation, with the greedy candidates of
    section 4.2 under any scoring rule and with or without the minimization
    pass, every required pair is among the covered pairs that the analysis
    reports for the returned suite, and the pairs covered by the test cases
    of the suite are exactly the required pairs. (A generation succeeds only
    for a parameter set that passes the precondition, at least 2 parameters
    of at least 2 values each.) *)
Theorem generated_suite_covers_required (score : scoring) (minimization : bool)
    (parameters : dict) (testSuite : list test_case) (requiredPairs : gset Pair) :
  EnumerateAndBuild (greedy_candidate score) minimization parameters
    = inr (testSuite, requiredPairs) →
  (∀ p, p ∈ requiredPairs →
        p ∈ (AnalyzeCoverage testSuite requiredPairs parameters).1.1)
  ∧ (AnalyzeCoverage testSuite requiredPairs parameters).1.1 = requiredPairs
  ∧ suite_pairs parameters testSuite = requiredPairs.
Proof.
  intros (Hpre & Hreq & Hcov & Hall)%EnumerateAndBuild_covers.
  assert (suite_pairs parameters testSuite = requiredPairs) as Heq.
  { apply set_eq. intros p. split; [|by apply Hcov]. subst requiredPairs.
    apply suite_pairs_required. eapply Forall_impl; [done|].
    intros test [c ->]. apply greedy_values_is_test_case.
    by apply precondition_nonempty. }
  unfold AnalyzeCoverage.
  destruct (analyze_spec parameters testSuite ∅) as (-> & _).
  rewrite Heq. split_and!; [set_solver | set_solver | done].
Qed.

(** C1 on the two-by-two example, with the score that counts the pairs
    still reachable: the generation succeeds with four test cases, which
    cover the four required pairs. *)
Lemma generated_suite_covers_required_witness :
  EnumerateAndBuild (greedy_candidate score_reachable) false Examples.two_by_two
  = inr (Examples.two_by_two_suite, list_to_set (pair_list Examples.two_by_two))
  ∧ suite_pairs Examples.two_by_two Examples.two_by_two_suite
    = list_to_set (pair_list Examples.two_by_two).
Proof.
  assert (EnumerateAndBuild (greedy_candidate score_reachable) false
            Examples.two_by_two
          = inr (Examples.two_by_two_suite,
                 list_to_set (pair_list Examples.two_by_two))) as Hgen.
  { apply EnumerateAndBuild_success; vm_compute; reflexivity. }
  split; [exact Hgen|].
  exact (proj2 (proj2 (generated_suite_covers_required
                         score_reachable false _ _ _ Hgen))).
Defined.

(** *** Termination with the score that counts the reachable pairs *)

(** The gain of an assignment is positive exactly when it forms an
    uncovered pair with one of the others. *)
Lemma gain_pos (covered : gset Pair) (others : list assignment) (a : assignment) :
  0 < gain covered others a ↔ ∃ b, b ∈ others ∧ mk_pair a b ∉ covered.
Proof.
  unfold gain. split.
  - destruct (filter _ others) as [|b bs] eqn:Hf; simpl; [lia|]. intros _.
    assert (b ∈ filter (λ b, mk_pair a b ∉ covered) others) as Hb
      by (rewrite Hf; by left).
    apply list_elem_of_filter in Hb as [? ?]. eauto.
  - intros (b & Hb & Hnew).
    assert (b ∈ filter (λ b, mk_pair a b ∉ covered) others) as Hin
      by by apply list_elem_of_filter.
    destruct (filter _ others); [by apply elem_of_nil in Hin | simpl; lia].
Qed.

(** One candidate makes progress: when an uncovered pair can still be formed,
    between a chosen assignment and a parameter to come or between two
    parameters to come, the candidate covers an uncovered pair. *)
Lemma greedy_values_progress (covered : gset Pair) (parameters : dict) :
  Forall (λ vs, vs ≠ []) (values parameters) →
  ∀ chosen,
    (∃ a b, a ∈ chosen ∧ b ∈ (parameters ≫= assignments_of)
            ∧ mk_pair a b ∉ covered)
    ∨ (∃ p, p ∈ pair_list parameters ∧ p ∉ covered) →
    ∃ a b, (mk_pair a b ∉ covered)
      ∧ ((a ∈ chosen
          ∧ b ∈ zip (keys parameters)
                    (greedy_values score_reachable covered chosen parameters))
         ∨ mk_pair a b
           ∈ pairs_among
               (zip (keys parameters)
                    (greedy_values score_reachable covered chosen parameters))).
Proof.
  unfold values, keys.
  induction parameters as [|[name domain] later IH]; intros Hne chosen Hopen.
  { destruct Hopen as [(a & b & _ & Hb & _) | (p & Hp & _)]; csimpl in *.
    - by apply elem_of_nil in Hb.
    - by apply elem_of_nil in Hp. }
  csimpl in Hne. apply Forall_cons in Hne as [Hdom Hne].
  csimpl. set (score := λ w, score_reachable covered chosen later (name, w)).
  set (v := pick score domain).
  set (vs := greedy_values score_reachable covered (chosen ++ [(name, v)]) later).
  (* what the rest of the candidate covers is covered by the candidate *)
  assert ((∃ a b, a ∈ chosen ++ [(name, v)] ∧ b ∈ (later ≫= assignments_of)
                  ∧ mk_pair a b ∉ covered)
          ∨ (∃ p, p ∈ pair_list later ∧ p ∉ covered) →
          ∃ a b, (mk_pair a b ∉ covered)
            ∧ ((a ∈ chosen ∧ b ∈ (name, v) :: zip later.*1 vs)
               ∨ mk_pair a b
                 ∈ (mk_pair (name, v) <$> zip later.*1 vs)
                   ++ pairs_among (zip later.*1 vs))) as Hrest.
  { intros Hopen'. destruct (IH Hne _ Hopen') as (a & b & Hnew & Hab).
    exists a, b. split; [done|]. fold vs in Hab.
    destruct Hab as [[Ha Hb] | Hab].
    - apply elem_of_app in Ha as [Ha | ->%list_elem_of_singleton].
      + left. split; [done | by right].
      + right. apply elem_of_app. left. apply list_elem_of_fmap. eauto.
    - right. apply elem_of_app. by right. }
  (* a positive score of the picked value is enough *)
  assert (0 < score v →
          ∃ a b, (mk_pair a b ∉ covered)
            ∧ ((a ∈ chosen ∧ b ∈ (name, v) :: zip later.*1 vs)
               ∨ mk_pair a b
                 ∈ (mk_pair (name, v) <$> zip later.*1 vs)
                   ++ pairs_among (zip later.*1 vs))) as Hpos.
  { unfold score, score_reachable. intros Hscore.
    destruct (decide (0 < gain covered chosen (name, v))) as [Hg|Hg].
    - apply gain_pos in Hg as (b & Hb & Hnew).
      exists b, (name, v). rewrite mk_pair_comm. split; [done|].
      left. split; [done | by left].
    - assert (0 < gain covered (later ≫= assignments_of) (name, v)) as Hg'
        by lia.
      apply gain_pos in Hg' as (b & Hb & Hnew).
      apply Hrest. left. exists (name, v), b.
      split_and!; [|done|done]. apply elem_of_app. right. by left. }
  (* a positive score of some value carries over to the picked one *)
  assert (∀ w, w ∈ domain → 0 < score w → 0 < score v) as Hmax.
  { intros w Hw Hsw. pose proof (pick_max score domain w Hw) as Hle.
    fold v in Hle. lia. }
  destruct Hopen as [(a & b & Ha & Hb & Hnew) | (p & Hp & Hnew)].
  - apply elem_of_app in Hb as [Hb | Hb].
    + apply list_elem_of_fmap in Hb as (w & -> & Hw). simpl in *.
      apply Hpos, (Hmax w Hw). unfold score, score_reachable.
      assert (0 < gain covered chosen (name, w)); [|lia].
      apply gain_pos. exists a. by rewrite mk_pair_comm.
    + apply Hrest. left. exists a, b. split_and!; [|done|done].
      apply elem_of_app. by left.
  - simpl in Hp. apply elem_of_app in Hp as [Hp | Hp].
    + apply list_elem_of_bind in Hp as (a & Hp & (w & -> & Hw)%list_elem_of_fmap).
      apply list_elem_of_bind in Hp as (b & ->%list_elem_of_singleton & Hb).
      simpl in *. apply Hpos, (Hmax w Hw). unfold score, score_reachable.
      assert (0 < gain covered (later ≫= assignments_of) (name, w)); [|lia].
      apply gain_pos. eauto.
    + apply Hrest. right. eauto.
Qed.

(** While a required pair is uncovered, the candidate covers a new one. *)
Lemma greedy_candidate_progress (covered : gset Pair) (parameters : dict) (p : Pair) :
  Forall (λ vs, vs ≠ []) (values parameters) →
  p ∈ pair_list parameters → p ∉ covered →
  ∃ q, (q ∉ covered)
    ∧ q ∈ test_case_pairs parameters
            (greedy_candidate score_reachable parameters covered).
Proof.
  intros Hne Hp Hnew.
  destruct (greedy_values_progress covered parameters Hne [])
    as (a & b & Hab & [[Ha _] | Hin]); [right; eauto | | ].
  - by apply elem_of_nil in Ha.
  - exists (mk_pair a b). split; [done|].
    unfold test_case_pairs, greedy_candidate. by apply elem_of_list_to_set.
Qed.

(** The loop returns a suite when the bound is at least the number of
    required pairs that are still uncovered. *)
Lemma greedy_loop_terminates (parameters : dict) (bound : nat) :
  Forall (λ vs, vs ≠ []) (values parameters) →
  ∀ covered suite,
    size (list_to_set (pair_list parameters) ∖ covered : gset Pair) ≤ bound →
    ∃ result,
      greedy_loop (greedy_candidate score_reachable parameters) parameters
        (list_to_set (pair_list parameters)) bound covered suite = inr result.
Proof.
  intros Hne. set (required := list_to_set (pair_list parameters) : gset Pair).
  assert (∀ covered, ¬ required ⊆ covered → ∃ p, p ∈ required ∧ p ∉ covered)
    as Hchoose.
  { intros covered Hnot. destruct (decide (required ∖ covered = ∅)) as [He|He].
    - exfalso. apply Hnot. set_solver.
    - apply set_choose_L in He as [p Hp]. exists p. set_solver. }
  induction bound as [|bound IH]; intros covered suite Hsize; simpl;
    case_bool_decide as Hdone; eauto.
  - exfalso. apply Hdone.
    assert (required ∖ covered = ∅) by (apply leibniz_equiv, size_empty_inv; lia).
    set_solver.
  - apply IH.
    destruct (Hchoose covered Hdone) as (p & Hp & Hnew).
    apply elem_of_list_to_set in Hp.
    destruct (greedy_candidate_progress covered parameters p Hne Hp Hnew)
      as (q & Hq & Hcov).
    pose proof (test_case_pairs_required parameters
                  (greedy_candidate score_reachable parameters covered)
                  (greedy_values_is_test_case _ _ _ Hne [])) as Hreq.
    fold required in Hreq.
    assert (required ∖ (covered ∪ test_case_pairs parameters
                          (greedy_candidate score_reachable parameters covered))
            ⊂ required ∖ covered) as Hsub.
    { split; [set_solver |]. intros Hback.
      assert (q ∈ required ∖ covered) as Hin by set_solver.
      apply Hback in Hin. set_solver. }
    apply subset_size in Hsub. lia.
Qed.

(** With the score that counts the reachable pairs, the generation succeeds
    for every parameter set that passes the precondition: each candidate
    covers a new pair, so the safety bound is never reached. *)
Lemma reachable_generation_succeeds (minimization : bool) (parameters : dict) :
  precondition parameters = true →
  ∃ testSuite,
    EnumerateAndBuild (greedy_candidate score_reachable) minimization parameters
    = inr (testSuite, list_to_set (pair_list parameters)).
Proof.
  intros Hpre.
  destruct (greedy_loop_terminates parameters
              (size (list_to_set (pair_list parameters) : gset Pair))
              (precondition_nonempty _ Hpre) ∅ []) as [suite Hloop].
  { apply subseteq_size. set_solver. }
  eexists. apply EnumerateAndBuild_success; [done|].
  unfold GreedySuiteBuilder. by rewrite Hloop.
Qed.

(** With the score of step 1 read to the letter the first parameter always
    takes its first value, and the generation for the two-by-two example
    ends in the safety bound. *)
Lemma score_chosen_stalls :
  EnumerateAndBuild (greedy_candidate score_chosen) false Examples.two_by_two
  = inl InternalConsistencyError.
Proof. apply EnumerateAndBuild_failure; vm_compute; reflexivity. Qed.

End Builder.

(** ** The generate section *)

Module Generate.
Import PyStr PyStrFacts Main Algo Builder.

(** The parameters listed in the error message are those with fewer than 2
    values; there is none exactly when every parameter has 2 values. *)
Lemma invalid_params_nil (parameters : dict) :
  invalid_params parameters = []
  ↔ Forall (λ vs, 2 ≤ length vs) (values parameters).
Proof.
  unfold invalid_params, values, items.
  induction parameters as [|[name vs] d IH]; csimpl.
  - split; [constructor | done].
  - rewrite filter_cons, Forall_cons. simpl. case_decide as Hlen; csimpl.
    + split; [done | lia].
    + rewrite IH. split; [split; [lia | done] | tauto].
Qed.

Lemma invalid_params_cons (parameters : dict) :
  Exists (λ vs, length vs < 2) (values parameters) →
  ∃ name names, invalid_params parameters = name :: names.
Proof.
  intros Hex. destruct (invalid_params parameters) as [|name names] eqn:Hinv.
  - apply invalid_params_nil in Hinv. apply Exists_exists in Hex as (vs & Hin & Hlt).
    rewrite Forall_forall in Hinv. apply Hinv in Hin. lia.
  - eauto.
Qed.

(** The rows built for the tests numbered from [i]. *)
Lemma table_rows_spec (optimal_tests : list test_case) (new_unique_counts : list nat) :
  ∀ i, 1 ≤ i → i - 1 + length optimal_tests ≤ length new_unique_counts →
  ∃ rows, table_rows i optimal_tests new_unique_counts = Some rows
    ∧ length rows = length optimal_tests
    ∧ ∀ k test, optimal_tests !! k = Some test →
        ∃ c, new_unique_counts !! (i - 1 + k) = Some c
          ∧ rows !! k = Some ([cell_str ("Test " +:+ pretty (i + k))]
                              ++ (cell_str <$> test) ++ [cell_int c]).
Proof.
  induction optimal_tests as [|test rest IH]; intros i Hi Hlen.
  - exists []. split_and!; [done | done | intros k t; by rewrite lookup_nil].
  - simpl in Hlen. simpl. unfold row.
    destruct (lookup_lt_is_Some_2 new_unique_counts (i - 1)) as [c Hc]; [lia|].
    rewrite Hc. simpl.
    destruct (IH (S i)) as (rows & -> & Hrows & Hnth); [lia | simpl; lia |].
    simpl. eexists. split_and!; [done | simpl; by rewrite Hrows |].
    intros [|k] t Hk; simpl in Hk.
    + injection Hk as <-. exists c. by rewrite Nat.add_0_r, Nat.add_0_r.
    + destruct (Hnth k t Hk) as (c' & Hc' & Hrow). exists c'. split.
      * rewrite <- Hc'. f_equal. lia.
      * replace (i + S k) with (S i + k) by lia. exact Hrow.
Qed.

Section Flow.
Context `{AlgoModule}.

(** C2: for a parameter set with fewer than 2 parameters, or with a
    parameter of fewer than 2 values, the generate section renders one
    error message and nothing else: [algo] is not called, no test suite is
    produced and no report is rendered. *)
Theorem generate_rejects_invalid_parameters (parameters : dict) :
  len parameters < 2 ∨ Exists (λ vs, length vs < 2) (values parameters) →
  ∃ msg, generate parameters = [st_error msg]
    ∧ (msg = "Please add at least 2 parameters"
       ∨ msg = "The following parameters need at least 2 values: "
               +:+ join ", " (invalid_params parameters)).
Proof.
  intros Hbad. unfold generate.
  destruct (invalid_params parameters) as [|name names] eqn:Hinv.
  - destruct Hbad as [Hlen | Hex].
    + apply Nat.ltb_lt in Hlen. rewrite Hlen. eauto.
    + apply invalid_params_cons in Hex as (? & ? & ?). congruence.
  - eauto.
Qed.

End Flow.

(** C2 at a single parameter: one error message, nothing else. *)
Lemma generate_rejects_invalid_parameters_witness :
  ∃ msg, @generate Examples.reachable_algo Examples.single_parameter
         = [st_error msg]
    ∧ (msg = "Please add at least 2 parameters"
       ∨ msg = "The following parameters need at least 2 values: "
               +:+ join ", " (invalid_params Examples.single_parameter)).
Proof.
  apply (@generate_rejects_invalid_parameters Examples.reachable_algo).
  left. vm_compute. lia.
Defined.

(** In a row of the table the cell after the label of column [j] holds the
    [j]-th value of the test, under the name of the [j]-th parameter. *)
Lemma row_columns (parameters : dict) (i j : nat) (test : test_case)
    (new_unique_counts : list nat) (r : list cell) (name v : string) :
  row i test new_unique_counts = Some r →
  keys parameters !! j = Some name → test !! j = Some v →
  headers parameters !! S j = Some name ∧ r !! S j = Some (cell_str v).
Proof.
  unfold row, headers. intros Hr Hname Hv.
  destruct (new_unique_counts !! (i - 1)) as [c|]; simpl in Hr; [|done].
  injection Hr as <-. simpl. split.
  - by rewrite lookup_app_l, Hname by by eapply lookup_lt_Some.
  - rewrite lookup_app_l by (rewrite length_fmap; by eapply lookup_lt_Some).
    rewrite list_lookup_fmap. unfold test_case in *. by rewrite Hv.
Qed.

End Generate.

(** ** More on the string primitives *)

Module StripFacts.
Import PyStr PyStrFacts App.

Lemma rstrip_idem (s : string) : rstrip (rstrip s) = rstrip s.
Proof.
  induction s as [|c s IH]; simpl; [done|].
  destruct (rstrip s) as [|c' r] eqn:Hr.
  - destruct (isspace c) eqn:Hc; simpl; [done|]. by rewrite Hc.
  - change (rstrip (String c (String c' r)))
      with (match rstrip (String c' r) with
            | EmptyString => if isspace c then EmptyString else String c EmptyString
            | r' => String c r'
            end).
    by rewrite IH.
Qed.

(** What [rstrip] leaves of a string that starts with a character that is
    not whitespace starts with that character. *)
Lemma rstrip_head (c : ascii) (s : string) :
  isspace c = false → ∃ r, rstrip (String c s) = String c r.
Proof.
  intros Hc. simpl. destruct (rstrip s); rewrite ?Hc; eauto.
Qed.

Lemma lstrip_head (s : string) :
  lstrip s = "" ∨ ∃ c r, lstrip s = String c r ∧ isspace c = false.
Proof.
  induction s as [|c s IH]; simpl; [by left|].
  destruct (isspace c) eqn:Hc; [done|]. right. eauto.
Qed.

(** Trimming twice is trimming once. *)
Lemma strip_idem (s : string) : strip (strip s) = strip s.
Proof.
  unfold strip. destruct (lstrip_head s) as [-> | (c & r & -> & Hc)]; [done|].
  destruct (rstrip_head c r Hc) as [r' Hr]. rewrite Hr.
  simpl lstrip. rewrite Hc, <- Hr. apply rstrip_idem.
Qed.

Lemma has_comma_lstrip (s : string) :
  has_comma s = false → has_comma (lstrip s) = false.
Proof.
  induction s as [|c s IH]; simpl; [done|].
  intros [Hc Hs]%orb_false_iff. destruct (isspace c); [by apply IH|].
  simpl. by rewrite Hc, Hs.
Qed.

Lemma has_comma_rstrip (s : string) :
  has_comma s = false → has_comma (rstrip s) = false.
Proof.
  induction s as [|c s IH]; simpl; [done|].
  intros [Hc Hs]%orb_false_iff. specialize (IH Hs).
  destruct (rstrip s) as [|c' r].
  - destruct (isspace c); simpl; [done|]. by rewrite Hc.
  - simpl in *. by rewrite Hc, IH.
Qed.

Lemma has_comma_strip (s : string) :
  has_comma s = false → has_comma (strip s) = false.
Proof. intros Hs. by apply has_comma_rstrip, has_comma_lstrip. Qed.

Lemma split_not_nil (sep : ascii) (s : string) : split sep s ≠ [].
Proof.
  destruct s as [|c s]; simpl; [done|].
  destruct (Ascii.eqb c sep); [done|]. by destruct (split sep s).
Qed.

(** No segment of [s.split(',')] holds a comma. *)
Lemma split_segments_no_comma (s : string) :
  Forall (λ seg, has_comma seg = false) (split ","%char s).
Proof.
  induction s as [|c s IH]; simpl; [by repeat constructor|].
  destruct (Ascii.eqb c ","%char) eqn:Hc; [by constructor|].
  destruct (split ","%char s) as [|seg segs]; [by repeat constructor; simpl; rewrite Hc|].
  apply Forall_cons in IH as [Hseg Hsegs].
  constructor; [|done]. simpl. by rewrite Hc, Hseg.
Qed.

(** A string without a comma is its own single segment. *)
Lemma split_no_comma (s : string) :
  has_comma s = false → split ","%char s = [s].
Proof.
  induction s as [|c s IH]; simpl; [done|].
  intros [Hc Hs]%orb_false_iff. by rewrite Hc, (IH Hs).
Qed.

Lemma split_app_comma (x s : string) :
  has_comma x = false →
  split ","%char (x +:+ String ","%char s) = x :: split ","%char s.
Proof.
  induction x as [|c x IH]; simpl; [done|].
  intros [Hc Hx]%orb_false_iff. by rewrite Hc, (IH Hx).
Qed.

(** The segments of the text of the edit box: the first value, and each
    further value behind one space. *)
Lemma split_join (x : string) (xs : list string) :
  Forall (λ v, has_comma v = false) (x :: xs) →
  split ","%char (join ", " (x :: xs)) = x :: (String " "%char <$> xs).
Proof.
  revert x. induction xs as [|y ys IH]; intros x [Hx Hxs]%Forall_cons.
  - simpl. by apply split_no_comma.
  - change (join ", " (x :: y :: ys))
      with (x +:+ String ","%char (String " "%char (join ", " (y :: ys)))).
    rewrite split_app_comma by done.
    change (split ","%char (String " "%char (join ", " (y :: ys))))
      with (match split ","%char (join ", " (y :: ys)) with
            | seg :: segs => String " "%char seg :: segs
            | [] => [String " "%char EmptyString]
            end).
    by rewrite (IH y Hxs).
Qed.

Lemma strip_space_prefix (v : string) : strip (String " "%char v) = strip v.
Proof. reflexivity. Qed.

Lemma all_space_app (x s : string) :
  all_space (x +:+ s) = all_space x && all_space s.
Proof.
  induction x as [|c x IH]; simpl; [done|]. by rewrite IH, andb_assoc.
Qed.

Lemma value_clean_not_space (v : string) :
  value_clean v → all_space v = false.
Proof.
  intros (Hne & Hstrip & _). destruct (all_space v) eqn:Hs; [|done].
  apply strip_empty in Hs. congruence.
Qed.

(** The text of the edit box of a clean, non-empty list is not blank. *)
Lemma join_not_space (x : string) (xs : list string) :
  value_clean x → all_space (join ", " (x :: xs)) = false.
Proof.
  intros Hx%value_clean_not_space. destruct xs as [|y ys]; [done|].
  change (join ", " (x :: y :: ys)) with (x +:+ ", " +:+ join ", " (y :: ys)).
  by rewrite all_space_app, Hx.
Qed.

End StripFacts.

(** ** More on the validation of names and values *)

Module ValidationMore.
Import PyStr PyStrFacts StripFacts App Validation.

(** The first test of both validation functions, [not s or not s.strip()],
    holds exactly for a string of whitespace only. *)
Lemma blank_guard (s : string) :
  negb (truthy s) || negb (truthy (strip s)) = all_space s.
Proof.
  destruct (all_space s) eqn:Hs.
  - apply strip_empty in Hs. rewrite Hs. simpl. apply orb_true_r.
  - apply orb_false_iff. split; apply negb_false_iff, truthy_true.
    + intros ->. done.
    + intros He%strip_empty. congruence.
Qed.

(** Whatever the input, the values that the list comprehension keeps are
    clean. *)
Lemma clean_values_clean (values : string) :
  Forall value_clean (clean_values values).
Proof.
  unfold clean_values. apply Forall_fmap, Forall_forall.
  intros seg [Hkept Hseg]%list_elem_of_filter. simpl.
  split_and!.
  - by apply truthy_true.
  - apply strip_idem.
  - apply has_comma_strip.
    pose proof (split_segments_no_comma values) as Hall.
    rewrite Forall_forall in Hall. by apply Hall.
Qed.

(** The list comprehension gives back a clean list from the text that the
    edit box shows for it. *)
Lemma clean_values_edit_box_text (vs : list string) :
  Forall value_clean vs → clean_values (edit_box_text vs) = vs.
Proof.
  unfold clean_values, edit_box_text. destruct vs as [|x xs]; [done|].
  intros Hall. rewrite split_join.
  2:{ eapply Forall_impl; [done|]. by intros v (_ & _ & ?). }
  apply Forall_cons in Hall as [(Hx & Hsx & _) Hxs].
  rewrite filter_cons, decide_True by (rewrite Hsx; by apply truthy_true).
  rewrite fmap_cons, Hsx. f_equal.
  induction xs as [|y ys IH]; [done|].
  apply Forall_cons in Hxs as [(Hy & Hsy & _) Hys]. rewrite fmap_cons.
  rewrite filter_cons, decide_True
    by (rewrite strip_space_prefix, Hsy; by apply truthy_true).
  rewrite fmap_cons, strip_space_prefix, Hsy. f_equal. by apply IH.
Qed.

(** The validation accepts the text that the edit box shows for a clean
    list of at least 2 distinct values, and returns that list. *)
Lemma validate_edit_box_text (vs : list string) :
  2 ≤ length vs → NoDup vs → Forall value_clean vs →
  validate_parameter_values (edit_box_text vs) = (true, vs, "").
Proof.
  intros Hlen Hnd Hclean.
  pose proof (clean_values_edit_box_text vs Hclean) as Hcv.
  destruct (validate_parameter_values_cases (edit_box_text vs))
    as [(_ & _ & ->) | (Hno & _)]; rewrite Hcv in *; [done | tauto].
Qed.

(** X1: The values that the validation accepts are stored clean: none is empty,
    none has whitespace at either end, none holds a comma. *)
Theorem accepted_values_are_clean (values : string) (values_list : list string)
    (msg : string) :
  validate_parameter_values values = (true, values_list, msg) →
  Forall value_clean values_list.
Proof.
  destruct (validate_parameter_values_cases values)
    as [(_ & _ & ->) | (_ & m & _ & ->)]; [|done].
  intros [= <- _]. apply clean_values_clean.
Qed.

(** X1 on an example. *)
Lemma accepted_values_are_clean_witness :
  Forall value_clean ["x"; "y z"].
Proof.
  apply (accepted_values_are_clean " x ,, y z " ["x"; "y z"] "").
  reflexivity.
Defined.

(** X2: Which error the validation of the values reports: a blank input, an
    input whose segments are all blank, a repeated value (also when the
    value is the only one), a single value. *)
Theorem validate_parameter_values_errors (values : string) :
  let kept := filter (λ v, v ≠ "") (trimmed_segments values) in
  (all_space values = true →
   validate_parameter_values values = (false, [], "Values cannot be empty"))
  ∧ (all_space values = false → kept = [] →
     validate_parameter_values values = (false, [], "No valid values provided"))
  ∧ (¬ NoDup kept →
     validate_parameter_values values
     = (false, [], "Duplicate values are not allowed"))
  ∧ (length kept = 1 →
     validate_parameter_values values
     = (false, [], "At least 2 values are required for each parameter")).
Proof.
  simpl. rewrite <- clean_values_filter. unfold validate_parameter_values.
  rewrite blank_guard. destruct (all_space values) eqn:Hs.
  - rewrite (clean_values_all_space _ Hs).
    split_and!; [done | done | |done].
    intros Hnd. exfalso. apply Hnd. constructor.
  - destruct (clean_values values) as [|v vs] eqn:Hcv.
    { split_and!; [done | done | | done].
      intros Hnd. exfalso. apply Hnd. constructor. }
    destruct (negb (length (v :: vs) =? len_set (v :: vs))) eqn:Hdup.
    + apply negb_true_iff, Nat.eqb_neq in Hdup. rewrite len_set_eq in Hdup.
      split_and!; [done | done | done |].
      intros Hone. destruct vs; [|done]. exfalso. apply Hdup.
      apply NoDup_singleton.
    + apply negb_false_iff, Nat.eqb_eq, len_set_eq in Hdup.
      split_and!; [done | done | tauto |].
      intros Hone. destruct vs; [done | done].
Qed.

(** X2 on an example. *)
Lemma validate_parameter_values_errors_witness :
  validate_parameter_values "a, a"
  = (false, [], "Duplicate values are not allowed").
Proof.
  apply (validate_parameter_values_errors "a, a").
  intros Hnd. vm_compute in Hnd. apply NoDup_cons in Hnd as [Hin _].
  apply Hin. by left.
Defined.

(** X3: The validation is idempotent through the edit box: the text that the
    edit box shows for an accepted list is accepted again, with the same
    list. *)
Theorem validate_parameter_values_edit_box (values : string)
    (values_list : list string) (msg : string) :
  validate_parameter_values values = (true, values_list, msg) →
  validate_parameter_values (edit_box_text values_list) = (true, values_list, "").
Proof.
  destruct (validate_parameter_values_cases values)
    as [(Hlen & Hnd & ->) | (_ & m & _ & ->)]; [|done].
  intros [= <- _]. apply validate_edit_box_text; [done | done |].
  apply clean_values_clean.
Qed.

(** X3 on an example. *)
Lemma validate_parameter_values_edit_box_witness :
  validate_parameter_values (edit_box_text ["x"; "y z"]) = (true, ["x"; "y z"], "").
Proof.
  apply (validate_parameter_values_edit_box " x ,, y z " ["x"; "y z"] "").
  reflexivity.
Defined.

(** X4: Whitespace around a name does not matter to its validation. *)
Theorem validate_parameter_name_strip (parameters : dict) (name : string) :
  validate_parameter_name parameters (strip name)
  = validate_parameter_name parameters name.
Proof.
  unfold validate_parameter_name.
  rewrite !blank_guard, strip_idem.
  replace (all_space (strip name)) with (all_space name); [done|].
  destruct (all_space name) eqn:Hs.
  - apply strip_empty in Hs. by rewrite Hs.
  - symmetry. destruct (all_space (strip name)) eqn:Hs'; [|done].
    apply strip_empty in Hs'. rewrite strip_idem in Hs'.
    apply strip_empty in Hs'. congruence.
Qed.

End ValidationMore.

(** ** More on the button handlers *)

Module Handlers.
Import PyStr PyStrFacts StripFacts App Validation ValidationMore State.

(** *** The dictionary *)

Lemma set_fresh (k : string) (v : list string) (d : dict) :
  k ∉ keys d → set k v d = d ++ [(k, v)].
Proof.
  unfold keys. induction d as [|[k' v'] d IH]; csimpl; [done|].
  intros Hk. rewrite decide_False by (intros ->; apply Hk; by left).
  rewrite IH; [done|]. intros Hin. apply Hk. by right.
Qed.

Lemma get_set_eq (k : string) (v : list string) (d : dict) :
  get k (set k v d) = Some v.
Proof.
  induction d as [|[k' v'] d IH]; simpl.
  - by rewrite decide_True.
  - destruct (decide (k = k')) as [->|Hne]; simpl.
    + by rewrite decide_True.
    + by rewrite decide_False.
Qed.

Lemma get_set_ne (k k' : string) (v : list string) (d : dict) :
  k' ≠ k → get k' (set k v d) = get k' d.
Proof.
  intros Hne. induction d as [|[k0 v0] d IH]; simpl.
  - by rewrite decide_False.
  - destruct (decide (k = k0)) as [->|Hk]; simpl.
    + by rewrite !decide_False.
    + by rewrite IH.
Qed.

Lemma set_same (k : string) (v : list string) (d : dict) :
  get k d = Some v → set k v d = d.
Proof.
  induction d as [|[k' v'] d IH]; simpl; [done|].
  destruct (decide (k = k')) as [->|Hne].
  - by intros [= ->].
  - intros Hget. by rewrite IH.
Qed.

Lemma get_in_values (k : string) (v : list string) (d : dict) :
  get k d = Some v → v ∈ values d.
Proof.
  unfold values. induction d as [|[k' v'] d IH]; csimpl; [done|].
  destruct (decide (k = k')) as [->|Hne].
  - intros [= ->]. by left.
  - intros Hget. right. by apply IH.
Qed.

Lemma get_None (k : string) (d : dict) : get k d = None ↔ k ∉ keys d.
Proof.
  unfold keys. induction d as [|[k' v'] d IH]; csimpl.
  - split; [by intros _ ?%elem_of_nil | done].
  - destruct (decide (k = k')) as [->|Hne].
    + split; [done|]. intros Hk. exfalso. apply Hk. by left.
    + rewrite IH. split.
      * by intros Hk [?|?]%elem_of_cons.
      * intros Hk Hin. apply Hk. by right.
Qed.

Lemma del_None (k : string) (d : dict) : del k d = None ↔ k ∉ keys d.
Proof.
  unfold keys. induction d as [|[k' v'] d IH]; csimpl.
  - split; [by intros _ ?%elem_of_nil | done].
  - destruct (decide (k = k')) as [->|Hne].
    + split; [done|]. intros Hk. exfalso. apply Hk. by left.
    + destruct (del k d) as [d'|]; csimpl.
      * split; [done|]. intros Hk.
        assert (Some d' = None) as Habs; [|done].
        apply IH. intros Hin. apply Hk. by right.
      * split; [|done]. intros _ [?|Hin]%elem_of_cons; [done|].
        by apply (proj1 IH).
Qed.

Lemma filter_all {A} (P : A → Prop) `{!∀ x, Decision (P x)} (l : list A) :
  Forall P l → filter P l = l.
Proof.
  induction 1 as [|x l Hx _ IH]; [done|].
  by rewrite filter_cons, decide_True, IH.
Qed.

(** What deletion leaves of a dictionary with unique keys. *)
Lemma del_Some (k : string) (d d' : dict) :
  wf d → del k d = Some d' →
  keys d' = filter (λ k', k' ≠ k) (keys d)
  ∧ get k d' = None
  ∧ ∀ k', k' ≠ k → get k' d' = get k' d.
Proof.
  unfold wf, keys. revert d'.
  induction d as [|[k0 v0] d IH]; csimpl; [done|].
  intros d' [Hk0 Hnd]%NoDup_cons. destruct (decide (k = k0)) as [->|Hne].
  - intros [= <-]. split_and!.
    + rewrite filter_cons, decide_False by (intros H; by apply H).
      symmetry. apply filter_all.
      apply Forall_forall. intros k' Hin ->. done.
    + by apply get_None.
    + intros k' Hk'. by rewrite decide_False.
  - destruct (del k d) as [d''|] eqn:Hdel; csimpl; [|done].
    intros [= <-]. destruct (IH d'' Hnd eq_refl) as (Hkeys & Hget & Hother).
    split_and!.
    + csimpl. rewrite filter_cons, decide_True by done. by rewrite Hkeys.
    + simpl. by rewrite decide_False.
    + intros k' Hk'. simpl. destruct (decide (k' = k0)); [done|].
      by apply Hother.
Qed.

Lemma del_fresh (k : string) (v : list string) (d : dict) :
  k ∉ keys d → del k (d ++ [(k, v)]) = Some d.
Proof.
  unfold keys. induction d as [|[k' v'] d IH]; csimpl.
  - intros _. by rewrite decide_True.
  - intros Hk. rewrite decide_False by (intros ->; apply Hk; by left).
    rewrite IH; [done|]. intros Hin. apply Hk. by right.
Qed.

(** *** The validation of names, case by case *)

Lemma validate_parameter_name_cases (parameters : dict) (name : string) :
  (all_space name = true
   ∧ validate_parameter_name parameters name
     = (false, "Parameter name cannot be empty"))
  ∨ (all_space name = false ∧ strip name ∈ keys parameters
     ∧ validate_parameter_name parameters name
       = (false, "Parameter name already exists"))
  ∨ (all_space name = false ∧ (strip name ∉ keys parameters)
     ∧ validate_parameter_name parameters name = (true, "")).
Proof.
  unfold validate_parameter_name. rewrite blank_guard.
  destruct (all_space name); [by left|]. right.
  unfold contains. case_bool_decide; [by left | by right].
Qed.

(** *** Add *)

(** The Add handler, case by case: it appends the new parameter behind the
    existing ones, or changes nothing. *)
Lemma add_parameter_cases (new_param new_values : string) (parameters : dict) :
  (all_space new_param = false ∧ (strip new_param ∉ keys parameters)
   ∧ 2 ≤ length (clean_values new_values) ∧ NoDup (clean_values new_values)
   ∧ add_parameter new_param new_values parameters
     = (parameters ++ [(strip new_param, clean_values new_values)],
        Success ("Added parameter: " +:+ new_param)))
  ∨ ((all_space new_param = true ∨ strip new_param ∈ keys parameters)
     ∧ add_parameter new_param new_values parameters
       = (parameters, Error (validate_parameter_name parameters new_param).2))
  ∨ (all_space new_param = false ∧ (strip new_param ∉ keys parameters)
     ∧ ¬ (2 ≤ length (clean_values new_values) ∧ NoDup (clean_values new_values))
     ∧ add_parameter new_param new_values parameters
       = (parameters, Error (validate_parameter_values new_values).2)).
Proof.
  unfold add_parameter.
  destruct (validate_parameter_name_cases parameters new_param)
    as [(Hs & ->) | [(Hs & Hin & ->) | (Hs & Hnin & ->)]]; simpl.
  - right; left. auto.
  - right; left. auto.
  - destruct (validate_parameter_values_cases new_values)
      as [(Hlen & Hnd & ->) | (Hno & msg & _ & ->)]; simpl.
    + left. by rewrite set_fresh.
    + right; right. auto.
Qed.

(** X5: A successful Add puts the new parameter, under its trimmed name and
    with the cleaned values, behind the existing parameters, which keep
    their order and their values; a refused Add changes nothing. *)
Theorem add_parameter_appends (new_param new_values : string) (parameters : dict) :
  (∀ msg,
     (add_parameter new_param new_values parameters).2 = Success msg →
     (add_parameter new_param new_values parameters).1
     = parameters ++ [(strip new_param, clean_values new_values)]
     ∧ (strip new_param ∉ keys parameters)
     ∧ get (strip new_param) (add_parameter new_param new_values parameters).1
       = Some (clean_values new_values)
     ∧ ∀ k, k ∈ keys parameters →
         get k (add_parameter new_param new_values parameters).1
         = get k parameters)
  ∧ (∀ msg,
       (add_parameter new_param new_values parameters).2 = Error msg →
       (add_parameter new_param new_values parameters).1 = parameters).
Proof.
  destruct (add_parameter_cases new_param new_values parameters)
    as [(_ & Hnew & _ & _ & ->) | [(_ & ->) | (_ & _ & _ & ->)]];
    simpl; (split; [|done]); try done.
  intros msg _. rewrite <- (set_fresh _ _ _ Hnew).
  split_and!; [done | done | apply get_set_eq |].
  intros k Hk. apply get_set_ne. by intros ->.
Qed.

(** X5 on an example. *)
Lemma add_parameter_appends_witness :
  (add_parameter " Theme " "light, dark" Examples.two_by_two).1
  = Examples.two_by_two ++ [("Theme", ["light"; "dark"])].
Proof.
  destruct (add_parameter_appends " Theme " "light, dark" Examples.two_by_two)
    as [Hok _].
  destruct (Hok "Added parameter:  Theme " eq_refl) as (Hadd & _).
  exact Hadd.
Defined.

(** X6: A successful Update of an existing parameter keeps the names and their
    order, stores the cleaned values under that parameter and leaves the
    values of every other parameter alone; a refused Update changes
    nothing. *)
Theorem update_parameter_result (param values : string) (parameters : dict) :
  param ∈ keys parameters →
  (∀ msg,
     (update_parameter param values parameters).2 = Success msg →
     keys (update_parameter param values parameters).1 = keys parameters
     ∧ get param (update_parameter param values parameters).1
       = Some (clean_values values)
     ∧ ∀ k, k ≠ param →
         get k (update_parameter param values parameters).1 = get k parameters)
  ∧ (∀ msg,
       (update_parameter param values parameters).2 = Error msg →
       (update_parameter param values parameters).1 = parameters).
Proof.
  intros Hin. unfold update_parameter.
  destruct (validate_parameter_values_cases values)
    as [(_ & _ & ->) | (_ & m & _ & ->)]; simpl; (split; [|done]); [|done].
  intros msg _. split_and!.
  - by rewrite keys_set, decide_True.
  - apply get_set_eq.
  - intros k Hk. by apply get_set_ne.
Qed.

(** X6 on an example. *)
Lemma update_parameter_result_witness :
  keys (update_parameter "A" "x, y, z" Examples.two_by_two).1 = ["A"; "B"]
  ∧ get "A" (update_parameter "A" "x, y, z" Examples.two_by_two).1
    = Some ["x"; "y"; "z"].
Proof.
  destruct (update_parameter_result "A" "x, y, z" Examples.two_by_two)
    as [Hok _].
  { vm_compute. apply list_elem_of_In. simpl. tauto. }
  destruct (Hok "Updated A" eq_refl) as (Hkeys & Hget & _).
  split; [exact Hkeys | exact Hget].
Defined.

(** X7: Pressing Update with the text that the edit box shows for the stored
    values leaves the parameters as they are, when the stored values are
    clean, distinct and at least 2. *)
Theorem update_untouched_is_identity (param : string) (values_list : list string)
    (parameters : dict) :
  parameters_ok parameters → parameters_clean parameters →
  get param parameters = Some values_list →
  update_parameter param (edit_box_text values_list) parameters
  = (parameters, Success ("Updated " +:+ param)).
Proof.
  intros [_ Hok] Hclean Hget. unfold update_parameter.
  pose proof (get_in_values _ _ _ Hget) as Hin.
  rewrite Forall_forall in Hok. destruct (Hok _ Hin) as [Hlen Hnd].
  unfold parameters_clean in Hclean. rewrite Forall_forall in Hclean.
  rewrite (validate_edit_box_text values_list Hlen Hnd (Hclean _ Hin)).
  simpl. by rewrite set_same.
Qed.

Lemma default_parameters_clean : parameters_clean default_parameters.
Proof.
  unfold parameters_clean, value_clean.
  apply (bool_decide_unpack _). vm_compute. exact I.
Qed.

(** X7 on an example. *)
Lemma update_untouched_is_identity_witness :
  update_parameter "Fonts" (edit_box_text ["Minimal"; "Standard"; "Document-loaded"])
    default_parameters
  = (default_parameters, Success "Updated Fonts").
Proof.
  apply (update_untouched_is_identity "Fonts"
           ["Minimal"; "Standard"; "Document-loaded"] default_parameters).
  - apply parameters_ok_default.
  - apply default_parameters_clean.
  - reflexivity.
Defined.

(** X8: With more than 2 parameters, Delete removes the entry of an existing
    parameter and nothing else: the other names keep their order and their
    values; for a name that is not a key, [del] raises KeyError. *)
Theorem delete_parameter_result (param : string) (parameters : dict) :
  wf parameters → 2 < len parameters →
  (param ∈ keys parameters →
   ∃ parameters',
     delete_parameter param parameters
     = Some (parameters', Success ("Deleted " +:+ param))
     ∧ keys parameters' = filter (λ k, k ≠ param) (keys parameters)
     ∧ len parameters = S (len parameters')
     ∧ get param parameters' = None
     ∧ ∀ k, k ≠ param → get k parameters' = get k parameters)
  ∧ (param ∉ keys parameters → delete_parameter param parameters = None).
Proof.
  intros Hwf Hlen. unfold delete_parameter.
  apply Nat.leb_gt in Hlen. rewrite Hlen. split.
  - intros Hin. destruct (del param parameters) as [d|] eqn:Hdel.
    + destruct (del_Some _ _ _ Hwf Hdel) as (Hkeys & Hget & Hother).
      exists d. simpl. split_and!; try done. by eapply len_del.
    + apply del_None in Hdel. done.
  - intros Hnin%del_None. by rewrite Hnin.
Qed.

(** X8 on an example. *)
Lemma delete_parameter_result_witness :
  ∃ parameters',
    delete_parameter "OS" Examples.browsers
    = Some (parameters', Success "Deleted OS")
    ∧ keys parameters' = ["Browser"; "Language"].
Proof.
  destruct (delete_parameter_result "OS" Examples.browsers) as [Hin _].
  - unfold wf. apply (bool_decide_unpack _). vm_compute. exact I.
  - vm_compute. lia.
  - destruct Hin as (parameters' & Hdel & Hkeys & _).
    + vm_compute. apply list_elem_of_In. simpl. tauto.
    + exists parameters'. split; [exact Hdel|]. rewrite Hkeys. reflexivity.
Defined.

(** X9: Deleting the parameter that a successful Add has just added gives back
    the parameters from before the Add, when there were at least 2. *)
Theorem add_then_delete (new_param new_values : string) (parameters : dict)
    (msg : string) :
  2 ≤ len parameters →
  (add_parameter new_param new_values parameters).2 = Success msg →
  delete_parameter (strip new_param)
    (add_parameter new_param new_values parameters).1
  = Some (parameters, Success ("Deleted " +:+ strip new_param)).
Proof.
  intros Hlen.
  destruct (add_parameter_cases new_param new_values parameters)
    as [(_ & Hnew & _ & _ & ->) | [(_ & ->) | (_ & _ & _ & ->)]];
    simpl; [|done|done].
  intros _. unfold delete_parameter, len in *. rewrite length_app. simpl.
  replace (length parameters + 1 <=? 2) with false
    by (symmetry; apply Nat.leb_gt; lia).
  by rewrite del_fresh.
Qed.

(** X9 on an example. *)
Lemma add_then_delete_witness :
  delete_parameter "Theme"
    (add_parameter " Theme " "light, dark" Examples.two_by_two).1
  = Some (Examples.two_by_two, Success "Deleted Theme").
Proof.
  apply (add_then_delete " Theme " "light, dark" Examples.two_by_two
           "Added parameter:  Theme ").
  - vm_compute. lia.
  - reflexivity.
Defined.

(** X10: After a successful Add, an Add under the same name, whatever the
    whitespace around it and whatever the values, is refused as a name that
    already exists, and changes nothing. *)
Theorem add_twice_refused (new_param new_values again values' : string)
    (parameters : dict) (msg : string) :
  (add_parameter new_param new_values parameters).2 = Success msg →
  strip again = strip new_param →
  add_parameter again values' (add_parameter new_param new_values parameters).1
  = ((add_parameter new_param new_values parameters).1,
     Error "Parameter name already exists").
Proof.
  destruct (add_parameter_cases new_param new_values parameters)
    as [(Hs & Hnew & _ & _ & ->) | [(_ & ->) | (_ & _ & _ & ->)]];
    simpl; [|done|done].
  intros _ Hsame.
  set (parameters' := parameters ++ [(strip new_param, clean_values new_values)]).
  assert (all_space again = false) as Hs'.
  { destruct (all_space again) eqn:Ha; [|done].
    apply strip_empty in Ha. rewrite Hsame in Ha. apply strip_empty in Ha.
    congruence. }
  assert (strip again ∈ keys parameters') as Hin.
  { rewrite Hsame. unfold parameters', keys. rewrite fmap_app.
    apply elem_of_app. right. by left. }
  destruct (add_parameter_cases again values' parameters')
    as [(_ & Hnin & _) | [(_ & ->) | (_ & Hnin & _)]]; [done | | done].
  destruct (validate_parameter_name_cases parameters' again)
    as [(Ha & _) | [(_ & _ & ->) | (_ & Hnin & _)]]; [congruence | done | done].
Qed.

(** X10 on an example. *)
Lemma add_twice_refused_witness :
  add_parameter "Theme  " "x, y"
    (add_parameter " Theme " "light, dark" Examples.two_by_two).1
  = ((add_parameter " Theme " "light, dark" Examples.two_by_two).1,
     Error "Parameter name already exists").
Proof.
  apply (add_twice_refused " Theme " "light, dark" "Theme  " "x, y"
           Examples.two_by_two "Added parameter:  Theme ").
  - reflexivity.
  - reflexivity.
Defined.

(** X18: The columns of the results table follow the handlers: a
    successful Add puts the column of the new parameter last, before the
    count column; a successful Update of an existing parameter keeps the
    columns; a successful Delete of one of more than 2 parameters with unique
    names removes the column of that parameter and keeps the order of the
    others. *)
Theorem headers_follow_handlers (parameters : dict) :
  (∀ new_param new_values msg,
     (add_parameter new_param new_values parameters).2 = Success msg →
     headers (add_parameter new_param new_values parameters).1
     = ["Test Case #"] ++ keys parameters ++ [strip new_param]
       ++ ["New Unique Pairs"])
  ∧ (∀ param values msg,
       param ∈ keys parameters →
       (update_parameter param values parameters).2 = Success msg →
       headers (update_parameter param values parameters).1
       = headers parameters)
  ∧ (∀ param parameters' msg,
       wf parameters →
       delete_parameter param parameters = Some (parameters', Success msg) →
       headers parameters'
       = ["Test Case #"] ++ filter (λ k, k ≠ param) (keys parameters)
         ++ ["New Unique Pairs"]).
Proof.
  split_and!.
  - intros new_param new_values msg.
    destruct (add_parameter_cases new_param new_values parameters)
      as [(_ & _ & _ & _ & ->) | [(_ & ->) | (_ & _ & _ & ->)]];
      simpl; [|done|done].
    intros _. unfold headers, keys. rewrite fmap_app. simpl.
    by rewrite <- app_assoc.
  - intros param values msg Hin. unfold update_parameter.
    destruct (validate_parameter_values_cases values)
      as [(_ & _ & ->) | (_ & m & _ & ->)]; simpl; [|done].
    intros _. unfold headers. by rewrite keys_set, decide_True.
  - intros param parameters' msg Hwf. unfold delete_parameter.
    destruct (len parameters <=? 2); [done|].
    destruct (del param parameters) as [d|] eqn:Hdel; simpl; [|done].
    intros [= <- _]. destruct (del_Some _ _ _ Hwf Hdel) as (Hkeys & _).
    unfold headers. by rewrite Hkeys.
Qed.

(** X18 on an example. *)
Lemma headers_follow_handlers_witness :
  headers (add_parameter " Theme " "light, dark" Examples.two_by_two).1
  = ["Test Case #"; "A"; "B"; "Theme"; "New Unique Pairs"].
Proof.
  destruct (headers_follow_handlers Examples.two_by_two) as (Hadd & _).
  rewrite (Hadd " Theme " "light, dark" "Added parameter:  Theme " eq_refl).
  reflexivity.
Defined.

End Handlers.

(** ** The session over many runs *)

Module Session.
Import PyStr PyStrFacts StripFacts App Validation ValidationMore State Handlers.

(** What every run keeps true of the parameters of a session. *)
Lemma session_ok_default :
  parameters_ok default_parameters ∧ 2 ≤ len default_parameters
  ∧ parameters_clean default_parameters.
Proof.
  split_and!; [apply parameters_ok_default | vm_compute; lia
              | apply default_parameters_clean].
Qed.

Lemma len_set_ge (k : string) (v : list string) (d : dict) :
  len d ≤ len (set k v d).
Proof.
  unfold len. induction d as [|[k' v'] d IH]; simpl; [lia|].
  case_decide; simpl; lia.
Qed.

Lemma parameters_clean_del (k : string) (d d' : dict) :
  del k d = Some d' → parameters_clean d → parameters_clean d'.
Proof.
  intros Hsub%del_sublist. unfold parameters_clean.
  rewrite !Forall_forall. intros Hall vs Hin. apply Hall.
  by eapply (sublist_subseteq _ _ (fmap_sublist snd _ _ Hsub)).
Qed.

(** The handler of any button keeps the parameters valid. *)
Lemma handle_keeps (p : press) (parameters : dict) :
  parameters_ok parameters ∧ 2 ≤ len parameters ∧ parameters_clean parameters →
  parameters_ok (handle p parameters).1 ∧ 2 ≤ len (handle p parameters).1
  ∧ parameters_clean (handle p parameters).1.
Proof.
  intros (Hok & Hlen & Hclean). destruct p as [|n v|param v|param|]; simpl;
    [done | | | | done].
  - unfold add_parameter.
    destruct (validate_parameter_name parameters n) as [[] ?]; simpl; [|done].
    destruct (validate_parameter_values_cases v)
      as [(Hl & Hnd & ->) | (_ & m & _ & ->)]; simpl; [|done].
    split_and!.
    + by apply parameters_ok_set.
    + pose proof (len_set_ge (strip n) (clean_values v) parameters). lia.
    + apply values_set; [apply clean_values_clean | done].
  - destruct (contains param parameters); [|done]. unfold update_parameter.
    destruct (validate_parameter_values_cases v)
      as [(Hl & Hnd & ->) | (_ & m & _ & ->)]; simpl; [|done].
    split_and!.
    + by apply parameters_ok_set.
    + pose proof (len_set_ge param (clean_values v) parameters). lia.
    + apply values_set; [apply clean_values_clean | done].
  - destruct (contains param parameters); [|done]. unfold delete_parameter.
    destruct (len parameters <=? 2) eqn:Hle; [done|].
    apply Nat.leb_gt in Hle.
    destruct (del param parameters) as [d|] eqn:Hdel; simpl; [|done].
    split_and!.
    + by eapply parameters_ok_del.
    + apply len_del in Hdel. lia.
    + by eapply parameters_clean_del.
Qed.

Section Runs.
Context `{AlgoModule}.

Lemma main_parameters (st : session_state) (p : press) :
  (main st p).1 = (handle p (initialize_session_state st)).1.
Proof. unfold main. by destruct (handle p (initialize_session_state st)). Qed.

Lemma main_rendered (st : session_state) (p : press) :
  (main st p).2
  = (handle p (initialize_session_state st)).2
    ++ match p with press_generate => generate (main st p).1 | _ => [] end.
Proof. unfold main. by destruct (handle p (initialize_session_state st)). Qed.

(** A run keeps the parameters valid, from a fresh session or from valid
    ones. *)
Lemma main_keeps (st : session_state) (p : press) :
  (∀ parameters, st = Some parameters →
     parameters_ok parameters ∧ 2 ≤ len parameters ∧ parameters_clean parameters) →
  parameters_ok (main st p).1 ∧ 2 ≤ len (main st p).1
  ∧ parameters_clean (main st p).1.
Proof.
  intros Hst. rewrite main_parameters. apply handle_keeps.
  destruct st as [parameters|]; simpl; [by apply Hst | apply session_ok_default].
Qed.

Lemma session_keeps (presses : list press) :
  ∀ st,
    (∀ parameters, st = Some parameters →
       parameters_ok parameters ∧ 2 ≤ len parameters
       ∧ parameters_clean parameters) →
    ∀ parameters, session st presses = Some parameters →
      parameters_ok parameters ∧ 2 ≤ len parameters
      ∧ parameters_clean parameters.
Proof.
  induction presses as [|p rest IH]; intros st Hst parameters; simpl.
  - apply Hst.
  - apply IH. intros d [= <-]. by apply main_keeps.
Qed.

(** X11: From a fresh session, whatever buttons are pressed in whatever order
    and with whatever texts, the parameters stay valid: at least 2
    parameters, unique names, and for each at least 2 distinct values, each
    of them clean. *)
Theorem session_parameters_stay_valid (presses : list press) (p : press) :
  parameters_ok (main (session None presses) p).1
  ∧ 2 ≤ len (main (session None presses) p).1
  ∧ parameters_clean (main (session None presses) p).1.
Proof.
  apply main_keeps. apply (session_keeps presses None). intros ? [=].
Qed.

(** X12: From a fresh session, pressing Generate never ends in one of the two
    precondition errors: the run always reaches the call of the generator
    with the parameters of the session. *)
Theorem session_generate_reaches_generator (presses : list press) :
  ∃ rest,
    (main (session None presses) press_generate).2
    = call_find_minimum_test_suite (main (session None presses) press_generate).1
      :: rest.
Proof.
  destruct (main_keeps (session None presses) press_generate)
    as ((_ & Hvals) & Hlen & _).
  { apply (session_keeps presses None). intros ? [=]. }
  rewrite main_rendered. rewrite main_parameters in *. simpl in *.
  set (parameters := initialize_session_state (session None presses)) in *.
  unfold generate.
  assert (invalid_params parameters = []) as ->.
  { apply Generate.invalid_params_nil. eapply Forall_impl; [done|].
    by intros vs [? _]. }
  apply Nat.ltb_ge in Hlen. rewrite Hlen. eauto.
Qed.

End Runs.

End Session.

(** ** More on the generate section *)

Module GenerateMore.
Import PyStr PyStrFacts App Generate.

(** The rows cannot be built when a test has no count. *)
Lemma table_rows_none (optimal_tests : list test_case) (new_unique_counts : list nat) :
  ∀ i, 1 ≤ i → optimal_tests ≠ [] →
    length new_unique_counts < i - 1 + length optimal_tests →
    table_rows i optimal_tests new_unique_counts = None.
Proof.
  induction optimal_tests as [|test rest IH]; intros i Hi Hne Hlen; [done|].
  simpl in *. unfold row.
  destruct (new_unique_counts !! (i - 1)) as [c|] eqn:Hc; simpl; [|done].
  apply lookup_lt_Some in Hc.
  rewrite IH; [done | lia | | simpl; lia].
  intros ->. simpl in Hlen. lia.
Qed.

(** X13: The table is built exactly when there are at least as many counts as
    tests; otherwise [new_unique_counts[i-1]] raises IndexError. *)
Theorem table_data_none_iff (optimal_tests : list test_case)
    (new_unique_counts : list nat) :
  table_data optimal_tests new_unique_counts = None
  ↔ length new_unique_counts < length optimal_tests.
Proof.
  unfold table_data. split.
  - intros Hnone.
    destruct (decide (length optimal_tests ≤ length new_unique_counts))
      as [Hle|Hgt]; [|lia].
    destruct (table_rows_spec optimal_tests new_unique_counts 1)
      as (rows & Hrows & _); [lia | simpl; lia | congruence].
  - intros Hlt. apply table_rows_none; [lia | | simpl; lia].
    intros ->. simpl in Hlt. lia.
Qed.

(** Every row has one cell for the label, one per value of the test, and
    one for the count. *)
Lemma table_rows_width (optimal_tests : list test_case) (new_unique_counts : list nat) :
  ∀ i rows,
    table_rows i optimal_tests new_unique_counts = Some rows →
    Forall2 (λ test r, length r = length test + 2) optimal_tests rows.
Proof.
  induction optimal_tests as [|test rest IH]; intros i rows; simpl.
  - intros [= <-]. constructor.
  - unfold row. destruct (new_unique_counts !! (i - 1)) as [c|]; simpl; [|done].
    destruct (table_rows (S i) rest new_unique_counts) as [rows'|] eqn:Hrest;
      simpl; [|done].
    intros [= <-]. constructor; [|by eapply IH].
    simpl. rewrite length_app, length_fmap. simpl. lia.
Qed.

(** X14: When every test has one value per parameter, every row of the table has
    as many cells as there are headers. *)
Theorem table_matches_headers (parameters : dict) (optimal_tests : list test_case)
    (new_unique_counts : list nat) (rows : list (list cell)) :
  table_data optimal_tests new_unique_counts = Some rows →
  Forall (λ test, length test = len parameters) optimal_tests →
  Forall (λ r, length r = length (headers parameters)) rows.
Proof.
  intros Hrows%table_rows_width Htests.
  assert (length (headers parameters) = len parameters + 2) as ->.
  { unfold headers, keys, len. simpl. rewrite length_app, length_fmap.
    simpl. lia. }
  induction Hrows as [|test r tests rows' Hr _ IH]; [constructor|].
  apply Forall_cons in Htests as [Htest Htests].
  constructor; [lia | by apply IH].
Qed.

(** X14 on an example. *)
Lemma table_matches_headers_witness :
  Forall (λ r, length r = length (headers Examples.two_by_two))
    [[cell_str "Test 1"; cell_str "a1"; cell_str "b1"; cell_int 1];
     [cell_str "Test 2"; cell_str "a2"; cell_str "b1"; cell_int 1]].
Proof.
  apply (table_matches_headers Examples.two_by_two
           [["a1"; "b1"]; ["a2"; "b1"]] [1; 1]).
  - reflexivity.
  - repeat constructor.
Defined.

Section Flow.
Context `{AlgoModule}.

(** X15: When the generator returns an empty suite, the run reports that no
    suite was found and stops: the analysis is not called and no table is
    rendered. *)
Theorem generate_empty_suite (parameters : dict) (all_pairs : pair_set) :
  Forall (λ vs, 2 ≤ length vs) (values parameters) →
  2 ≤ len parameters →
  find_minimum_test_suite parameters = inr ([], all_pairs) →
  generate parameters
  = [call_find_minimum_test_suite parameters;
     st_error "No optimal test suite found."].
Proof.
  intros Hvals%invalid_params_nil Hlen%Nat.ltb_ge Hfind.
  unfold generate. by rewrite Hvals, Hlen, Hfind.
Qed.

(** X16: When the analysis returns fewer counts than there are tests, the run
    renders the success message and the metrics and then ends in IndexError:
    no table is rendered. *)
Theorem generate_short_counts (parameters : dict) (optimal_tests : list test_case)
    (all_pairs covered : pair_set) (per_test : list pair_set)
    (new_unique_counts : list nat) :
  Forall (λ vs, 2 ≤ length vs) (values parameters) →
  2 ≤ len parameters →
  find_minimum_test_suite parameters = inr (optimal_tests, all_pairs) →
  count_unique_pairs optimal_tests all_pairs parameters
    = inr (covered, per_test, new_unique_counts) →
  length new_unique_counts < length optimal_tests →
  generate parameters
  = [call_find_minimum_test_suite parameters;
     call_count_unique_pairs optimal_tests;
     st_success "Test suite generated successfully!";
     st_metric "Total Unique Pairs" (pair_set_len all_pairs);
     st_metric "Total Test Cases" (length optimal_tests);
     st_subheader "Test Cases";
     raised IndexError].
Proof.
  intros Hvals%invalid_params_nil Hlen%Nat.ltb_ge Hfind Hcount Hshort.
  unfold generate. rewrite Hvals, Hlen, Hfind.
  destruct optimal_tests as [|test rest] eqn:Htests; [simpl in Hshort; lia|].
  rewrite <- Htests in *. rewrite Hcount.
  unfold table_data. rewrite table_rows_none; [done | lia | | simpl; lia].
  by rewrite Htests.
Qed.

(** X17: A parameter with fewer than 2 values is reported first, also when
    there are fewer than 2 parameters; the message names, in dictionary
    order, exactly the parameters with fewer than 2 values. *)
Theorem generate_short_values_first (parameters : dict) :
  Exists (λ vs, length vs < 2) (values parameters) →
  generate parameters
  = [st_error ("The following parameters need at least 2 values: "
               +:+ join ", " (invalid_params parameters))]
  ∧ invalid_params parameters
    = (filter (λ item, length item.2 < 2) parameters).*1
  ∧ ∀ name, name ∈ invalid_params parameters
      ↔ ∃ vs, (name, vs) ∈ parameters ∧ length vs < 2.
Proof.
  intros (name & names & Hinv)%invalid_params_cons. split_and!.
  - unfold generate. by rewrite Hinv.
  - done.
  - intros n. unfold invalid_params, items. rewrite list_elem_of_fmap. split.
    + intros ([n' vs] & -> & [Hlt Hin]%list_elem_of_filter). eauto.
    + intros (vs & Hin & Hlt). exists (n, vs). split; [done|].
      by apply list_elem_of_filter.
Qed.

End Flow.

(** X15 on an example. *)
Lemma generate_empty_suite_witness :
  @generate Doubles.no_suite_algo Examples.two_by_two
  = [call_find_minimum_test_suite Examples.two_by_two;
     st_error "No optimal test suite found."].
Proof.
  apply (@generate_empty_suite Doubles.no_suite_algo Examples.two_by_two tt).
  - repeat constructor.
  - vm_compute. lia.
  - reflexivity.
Defined.

(** X16 on an example. *)
Lemma generate_short_counts_witness :
  last (@generate Doubles.no_count_algo Examples.two_by_two)
  = Some (raised IndexError).
Proof.
  rewrite (@generate_short_counts Doubles.no_count_algo Examples.two_by_two
             [["a1"; "b1"]] tt tt [] []).
  - reflexivity.
  - repeat constructor.
  - vm_compute. lia.
  - reflexivity.
  - reflexivity.
  - vm_compute. lia.
Defined.

(** X17 on an example. *)
Lemma generate_short_values_first_witness :
  @generate Examples.reachable_algo [("A", ["a1"])]
  = [st_error "The following parameters need at least 2 values: A"].
Proof.
  destruct (@generate_short_values_first Examples.reachable_algo [("A", ["a1"])])
    as (Hgen & _).
  - apply Exists_cons_hd. vm_compute. lia.
  - exact Hgen.
Defined.

End GenerateMore.

(** ** The results table *)

Module Rendering.
Import PyStr PyStrFacts App Generate GenerateMore Algo Builder.

Lemma max_list_uniform (rows : list (list cell)) (w : nat) :
  rows ≠ [] → Forall (λ r, length r = w) rows →
  max_list (length <$> rows) = w.
Proof.
  intros Hne Hall. induction Hall as [|r rest Hr Hrest IH]; [done|].
  csimpl. destruct rest as [|r' rest'].
  - simpl. lia.
  - rewrite IH by done. unfold id. lia.
Qed.

(** The widest row is two cells wider than the widest test. *)
Lemma max_list_rows (optimal_tests : list test_case) (rows : list (list cell)) :
  Forall2 (λ test r, length r = length test + 2) optimal_tests rows →
  optimal_tests ≠ [] →
  max_list (length <$> rows) = max_list (length <$> optimal_tests) + 2.
Proof.
  induction 1 as [|test r tests rows' Hr Hrest IH]; [done|]. intros _.
  csimpl. destruct Hrest as [|test' r' tests' rows'' Hr' Hrest'].
  - simpl. lia.
  - rewrite IH by done. lia.
Qed.

Lemma length_headers (parameters : dict) :
  length (headers parameters) = len parameters + 2.
Proof.
  unfold headers, keys, len. simpl. rewrite length_app, length_fmap.
  simpl. lia.
Qed.

(** The headers are pairwise distinct exactly when the parameter names are,
    and none of them is one of the two fixed headers. *)
Lemma NoDup_headers (parameters : dict) :
  NoDup (headers parameters)
  ↔ wf parameters ∧ ("Test Case #" ∉ keys parameters)
    ∧ ("New Unique Pairs" ∉ keys parameters).
Proof.
  unfold headers, wf. simpl. rewrite NoDup_cons, NoDup_app, elem_of_app.
  rewrite list_elem_of_singleton. split.
  - intros (Hfirst & Hkeys & Hlast & _). split_and!; [done | tauto |].
    intros Hin. apply (Hlast _ Hin). by left.
  - intros (Hkeys & Hfirst & Hlast). split_and!.
    + intros [?|?]; done.
    + done.
    + intros k Hk ->%list_elem_of_singleton. done.
    + apply NoDup_singleton.
Qed.

(** The rows that fit the headers, under distinct headers, are rendered as
    they are. *)
Lemma show_dataframe_fits (rows : list (list cell)) (columns : list string) :
  Forall (λ r, length r = length columns) rows → NoDup columns →
  show_dataframe rows columns = [st_dataframe columns rows].
Proof.
  intros Hall Hnd. unfold show_dataframe.
  rewrite bool_decide_eq_false_2.
  - by rewrite !bool_decide_eq_true_2.
  - intros [Hne Hmax]. by rewrite (max_list_uniform rows _ Hne Hall) in Hmax.
Qed.

(** Two headers of the same name end the run in ValueError. *)
Lemma show_dataframe_duplicate (rows : list (list cell)) (columns : list string) :
  ¬ NoDup columns → show_dataframe rows columns = [raised ValueError].
Proof.
  intros Hdup. unfold show_dataframe. case_bool_decide; [done|].
  by rewrite (bool_decide_eq_false_2 (NoDup columns)).
Qed.

Section Flow.
Context `{AlgoModule}.

(** The generate section up to the table, when the generator returns a
    non-empty suite and the analysis a count for each test: the rows are
    built, one per test in suite order, and handed to the dataframe step. *)
Lemma generate_builds_rows (parameters : dict) (optimal_tests : list test_case)
    (all_pairs covered : pair_set) (per_test : list pair_set)
    (new_unique_counts : list nat) :
  Forall (λ vs, 2 ≤ length vs) (values parameters) →
  2 ≤ len parameters →
  find_minimum_test_suite parameters = inr (optimal_tests, all_pairs) →
  optimal_tests ≠ [] →
  count_unique_pairs optimal_tests all_pairs parameters
    = inr (covered, per_test, new_unique_counts) →
  length optimal_tests ≤ length new_unique_counts →
  ∃ rows,
    generate parameters
    = [call_find_minimum_test_suite parameters;
       call_count_unique_pairs optimal_tests;
       st_success "Test suite generated successfully!";
       st_metric "Total Unique Pairs" (pair_set_len all_pairs);
       st_metric "Total Test Cases" (length optimal_tests);
       st_subheader "Test Cases"]
      ++ show_dataframe rows (headers parameters)
    ∧ table_data optimal_tests new_unique_counts = Some rows
    ∧ length rows = length optimal_tests
    ∧ (∀ i test, optimal_tests !! i = Some test →
         ∃ c, new_unique_counts !! i = Some c
           ∧ rows !! i = Some ([cell_str ("Test " +:+ pretty (S i))]
                               ++ (cell_str <$> test) ++ [cell_int c])).
Proof.
  intros Hvals Hlen Hfind Hne Hcount Hcounts. unfold generate.
  apply invalid_params_nil in Hvals. rewrite Hvals.
  apply Nat.ltb_ge in Hlen. rewrite Hlen, Hfind.
  destruct optimal_tests as [|test rest] eqn:Htests; [done|].
  rewrite <- Htests in *. rewrite Hcount. unfold table_data.
  destruct (table_rows_spec optimal_tests new_unique_counts 1)
    as (rows & Hrows & Hlenrows & Hnth); [lia | simpl; lia |].
  rewrite Hrows. exists rows. split_and!; [done | done | done |].
  intros i t Hi. destruct (Hnth i t Hi) as (c & Hc & Hrow).
  exists c. simpl in Hc. by split.
Qed.

(** C8: the code breaks the claim for a parameter that has the name of one
    of the two fixed headers, which the Add button accepts: the generator
    returns a suite, every test has one value per parameter and a count, the
    rows are built, and the run ends in ValueError where the table should be
    rendered: no results table appears. *)
Theorem results_table_duplicate_column (parameters : dict)
    (optimal_tests : list test_case) (all_pairs covered : pair_set)
    (per_test : list pair_set) (new_unique_counts : list nat) :
  Forall (λ vs, 2 ≤ length vs) (values parameters) →
  2 ≤ len parameters →
  find_minimum_test_suite parameters = inr (optimal_tests, all_pairs) →
  optimal_tests ≠ [] →
  count_unique_pairs optimal_tests all_pairs parameters
    = inr (covered, per_test, new_unique_counts) →
  length optimal_tests ≤ length new_unique_counts →
  "New Unique Pairs" ∈ keys parameters ∨ "Test Case #" ∈ keys parameters →
  generate parameters
  = [call_find_minimum_test_suite parameters;
     call_count_unique_pairs optimal_tests;
     st_success "Test suite generated successfully!";
     st_metric "Total Unique Pairs" (pair_set_len all_pairs);
     st_metric "Total Test Cases" (length optimal_tests);
     st_subheader "Test Cases";
     raised ValueError].
Proof.
  intros Hvals Hlen Hfind Hne Hcount Hcounts Hname.
  destruct (generate_builds_rows parameters optimal_tests all_pairs covered
              per_test new_unique_counts) as (rows & -> & _); try done.
  rewrite show_dataframe_duplicate; [done|].
  rewrite NoDup_headers. intros (_ & Hfirst & Hlast). tauto.
Qed.

(** X19: when the parameter names are distinct and none of them is one of
    the two fixed headers, the generator returns a non-empty suite of n
    tests with one value per parameter, and the analysis returns a count
    for each test, the section ends with the results table: n rows in suite
    order, row i (from 1) made of the label Test i, the values of test case
    i in tuple order, one per parameter column, and the i-th count. *)
Theorem results_table_rows (parameters : dict) (optimal_tests : list test_case)
    (all_pairs covered : pair_set) (per_test : list pair_set)
    (new_unique_counts : list nat) :
  Forall (λ vs, 2 ≤ length vs) (values parameters) →
  2 ≤ len parameters →
  find_minimum_test_suite parameters = inr (optimal_tests, all_pairs) →
  optimal_tests ≠ [] →
  count_unique_pairs optimal_tests all_pairs parameters
    = inr (covered, per_test, new_unique_counts) →
  length optimal_tests ≤ length new_unique_counts →
  Forall (λ test, length test = len parameters) optimal_tests →
  wf parameters →
  "Test Case #" ∉ keys parameters →
  "New Unique Pairs" ∉ keys parameters →
  ∃ rows,
    generate parameters
    = [call_find_minimum_test_suite parameters;
       call_count_unique_pairs optimal_tests;
       st_success "Test suite generated successfully!";
       st_metric "Total Unique Pairs" (pair_set_len all_pairs);
       st_metric "Total Test Cases" (length optimal_tests);
       st_subheader "Test Cases";
       st_dataframe (["Test Case #"] ++ keys parameters ++ ["New Unique Pairs"]) rows]
    ∧ length rows = length optimal_tests
    ∧ (∀ i test, optimal_tests !! i = Some test →
         ∃ c, new_unique_counts !! i = Some c
           ∧ rows !! i = Some ([cell_str ("Test " +:+ pretty (S i))]
                               ++ (cell_str <$> test) ++ [cell_int c])).
Proof.
  intros Hvals Hlen Hfind Hne Hcount Hcounts Hwidth Hwf Hfirst Hlast.
  destruct (generate_builds_rows parameters optimal_tests all_pairs covered
              per_test new_unique_counts)
    as (rows & -> & Hrows & Hlenrows & Hnth); try done.
  exists rows. split_and!; [|done|done].
  rewrite show_dataframe_fits; [done | | by apply NoDup_headers].
  rewrite length_headers. apply table_rows_width in Hrows.
  clear -Hrows Hwidth.
  induction Hrows as [|test r tests rows' Hr _ IH]; [constructor|].
  apply Forall_cons in Hwidth as [Htest Htests].
  constructor; [lia | by apply IH].
Qed.

(** X20: when the widest test does not have one value per parameter, the
    rows are built and the run ends in ValueError at [pd.DataFrame]: no
    results table appears. *)
Theorem results_table_wrong_width (parameters : dict)
    (optimal_tests : list test_case) (all_pairs covered : pair_set)
    (per_test : list pair_set) (new_unique_counts : list nat) :
  Forall (λ vs, 2 ≤ length vs) (values parameters) →
  2 ≤ len parameters →
  find_minimum_test_suite parameters = inr (optimal_tests, all_pairs) →
  optimal_tests ≠ [] →
  count_unique_pairs optimal_tests all_pairs parameters
    = inr (covered, per_test, new_unique_counts) →
  length optimal_tests ≤ length new_unique_counts →
  max_list (length <$> optimal_tests) ≠ len parameters →
  generate parameters
  = [call_find_minimum_test_suite parameters;
     call_count_unique_pairs optimal_tests;
     st_success "Test suite generated successfully!";
     st_metric "Total Unique Pairs" (pair_set_len all_pairs);
     st_metric "Total Test Cases" (length optimal_tests);
     st_subheader "Test Cases";
     raised ValueError].
Proof.
  intros Hvals Hlen Hfind Hne Hcount Hcounts Hwidth.
  destruct (generate_builds_rows parameters optimal_tests all_pairs covered
              per_test new_unique_counts)
    as (rows & -> & Hrows & Hlenrows & _); try done.
  unfold show_dataframe. rewrite bool_decide_eq_true_2; [done|].
  split.
  - intros ->. destruct optimal_tests; [done | discriminate].
  - apply table_rows_width in Hrows.
    rewrite (max_list_rows _ _ Hrows Hne), length_headers. lia.
Qed.

End Flow.

(** C8 at the failing input: the Add button accepts the name of the last
    header, and Generate on the three parameters ends in ValueError. *)
Lemma results_table_duplicate_column_witness :
  add_parameter "New Unique Pairs" "x, y" Examples.two_by_two
  = (Examples.with_header_name, Success "Added parameter: New Unique Pairs")
  ∧ last (@generate Examples.reachable_algo Examples.with_header_name)
    = Some (raised ValueError).
Proof.
  split; [reflexivity|].
  pose (suite := [["a1"; "b1"; "x"]; ["a2"; "b2"; "x"];
                  ["a1"; "b2"; "y"]; ["a2"; "b1"; "y"]] : list test_case).
  pose (analysis := AnalyzeCoverage suite
                      (list_to_set (pair_list Examples.with_header_name))
                      Examples.with_header_name).
  assert (analysis.2 = [3; 3; 3; 3]) as Hcounts by (vm_compute; reflexivity).
  rewrite (@results_table_duplicate_column Examples.reachable_algo
             Examples.with_header_name suite
             (list_to_set (pair_list Examples.with_header_name))
             analysis.1.1 analysis.1.2 [3; 3; 3; 3]).
  - reflexivity.
  - repeat constructor.
  - simpl. lia.
  - apply EnumerateAndBuild_success; vm_compute; reflexivity.
  - discriminate.
  - rewrite <- Hcounts. simpl. by destruct analysis as [[? ?] ?].
  - simpl. lia.
  - left. apply list_elem_of_In. simpl. tauto.
Defined.

(** X19 on the two-by-two example: four rows, the second one is test 2. *)
Lemma results_table_rows_witness :
  ∃ rows,
    last (@generate Examples.reachable_algo Examples.two_by_two)
    = Some (st_dataframe ["Test Case #"; "A"; "B"; "New Unique Pairs"] rows)
    ∧ length rows = 4
    ∧ rows !! 1 = Some [cell_str "Test 2"; cell_str "a2"; cell_str "b1"; cell_int 1].
Proof.
  pose (analysis := AnalyzeCoverage Examples.two_by_two_suite
                      (list_to_set (pair_list Examples.two_by_two))
                      Examples.two_by_two).
  assert (analysis.2 = [1; 1; 1; 1]) as Hcounts by (vm_compute; reflexivity).
  destruct (@results_table_rows Examples.reachable_algo Examples.two_by_two
              Examples.two_by_two_suite
              (list_to_set (pair_list Examples.two_by_two))
              analysis.1.1 analysis.1.2 [1; 1; 1; 1])
    as (rows & Hgen & Hlen & Hrows).
  - repeat constructor.
  - simpl. lia.
  - apply EnumerateAndBuild_success; vm_compute; reflexivity.
  - discriminate.
  - rewrite <- Hcounts. simpl. by destruct analysis as [[? ?] ?].
  - simpl. lia.
  - repeat constructor.
  - unfold wf. apply (bool_decide_unpack _). vm_compute. exact I.
  - apply (bool_decide_unpack _). vm_compute. exact I.
  - apply (bool_decide_unpack _). vm_compute. exact I.
  - exists rows. split_and!.
    + rewrite Hgen. reflexivity.
    + exact Hlen.
    + destruct (Hrows 1 ["a2"; "b1"] eq_refl) as (c & Hc & ->).
      injection Hc as <-. reflexivity.
Defined.

(** X20 on a test of three values for two parameters. *)
Lemma results_table_wrong_width_witness :
  last (@generate Doubles.wide_test_algo Examples.two_by_two)
  = Some (raised ValueError).
Proof.
  rewrite (@results_table_wrong_width Doubles.wide_test_algo Examples.two_by_two
             [["a1"; "b1"; "c1"]] tt tt [] [1]).
  - reflexivity.
  - repeat constructor.
  - simpl. lia.
  - reflexivity.
  - discriminate.
  - reflexivity.
  - simpl. lia.
  - vm_compute. lia.
Defined.

End Rendering.
